(** * Secure message protocol engine: a shallow embedding

    The development follows the Go package [crypto] of the repository:
    the padded AES wrapper with its admission control, the nonce
    tracker, the secure message codec and the two key agreements.

    Byte slices are lists of integers, [int64] arithmetic is written
    with its two's-complement wrap, Go maps are [gmap]s, and package
    level variables live in a [World] that every operation threads.
    Calls to [time.Now] and [rand.Read] are inputs of the operation that
    makes them, one argument per call, in call order.  The statistics
    sink ([metrics.SecurityStats]) only records durations and is left
    out. *)

From Stdlib Require Import ZArith Lia List Bool.
From stdpp Require Import gmap strings list fin_maps.

Open Scope Z_scope.

(** ** Machine integers and time *)

Abbreviation bytes := (list Z).

Definition is_byte (b : Z) : Prop := 0 <= b < 256.

Definition MinInt64 : Z := - 2 ^ 63.
Definition MaxInt64 : Z := 2 ^ 63 - 1.

Definition in_int64 (z : Z) : Prop := MinInt64 <= z <= MaxInt64.

(** Two's-complement reduction of a mathematical integer to [int64]. *)
Definition wrap64 (z : Z) : Z := (z + 2 ^ 63) mod 2 ^ 64 - 2 ^ 63.

Definition add64 (a b : Z) : Z := wrap64 (a + b).
Definition sub64 (a b : Z) : Z := wrap64 (a - b).

(** [byte(n)] for an [int] [n]. *)
Definition to_byte (n : Z) : Z := n mod 256.

(** [time.Time] as nanoseconds on one time line; [time.Duration] is an
    [int64] count of nanoseconds. *)
Abbreviation Time := Z.
Abbreviation Duration := Z.

Definition Millisecond : Duration := 1000000.
Definition Second : Duration := 1000 * Millisecond.
Definition Minute : Duration := 60 * Second.

Definition Time_Before (t u : Time) : bool := t <? u.
Definition Time_Add (t : Time) (d : Duration) : Time := t + d.

(** [t.Sub(u)] saturates at the ends of [Duration]. *)
Definition Time_Sub (t u : Time) : Duration :=
  if t - u <? MinInt64 then MinInt64
  else if MaxInt64 <? t - u then MaxInt64
  else t - u.

(** ** Outcomes of a call *)

Inductive error : Type :=
| ErrTimestamp                (* timestamp outside the allowed range *)
| ErrReplay                   (* nonce already used *)
| ErrHMAC
| ErrECDSA
| ErrRSA
| ErrDecrypt (cause : error)  (* fmt.Errorf wrapping the AESDecrypt error *)
| ErrEmptyData
| ErrBadPadding
| ErrKeySize                  (* aes.KeySizeError *)
| ErrConcurrency
| ErrRateLimit
| ErrParse
| ErrNotRSA
| ErrDHSignature.

(** [Ok] is a normal return, [Err] a returned [error], [Panic] a run-time
    panic and [Fatal] a [log.Fatal] exit. *)
Inductive outcome (A : Type) : Type :=
| Ok (a : A)
| Err (e : error)
| Panic
| Fatal.

Arguments Ok {A} a.
Arguments Err {A} e.
Arguments Panic {A}.
Arguments Fatal {A}.

Definition obind {A B} (x : outcome A) (f : A -> outcome B) : outcome B :=
  match x with
  | Ok a => f a
  | Err e => Err e
  | Panic => Panic
  | Fatal => Fatal
  end.

(** Slice expressions [s[:n]] and [s[n:]]; out of range panics. *)
Definition slice_to (s : bytes) (n : nat) : outcome bytes :=
  if (n <=? length s)%nat then Ok (take n s) else Panic.

Definition slice_from (s : bytes) (n : nat) : outcome bytes :=
  if (n <=? length s)%nat then Ok (drop n s) else Panic.

(** ** PKCS#7 padding *)

Definition BlockSize : nat := 16.

Definition PKCS7Pad (data : bytes) : bytes :=
  let pad := (BlockSize - length data mod BlockSize)%nat in
  let padtext := repeat (to_byte (Z.of_nat pad)) pad in
  data ++ padtext.

(** The scan of the last [pad] bytes, from index [i] up to the end. *)
Fixpoint padding_ok (tail : bytes) (pad : Z) : bool :=
  match tail with
  | [] => true
  | b :: rest => if b =? to_byte pad then padding_ok rest pad else false
  end.

Definition PKCS7Unpad (data : bytes) : outcome bytes :=
  match last data with
  | None => Err ErrEmptyData
  | Some lastb =>
      let pad := lastb in
      if (Z.of_nat BlockSize <? pad) || (pad =? 0) then Err ErrBadPadding
      else if Z.of_nat (length data) <? pad then Panic (* index out of range *)
      else if pad <? 0 then Panic (* not a byte; slice bounds out of range *)
      else
        let n := (length data - Z.to_nat pad)%nat in
        if padding_ok (drop n data) pad then Ok (take n data)
        else Err ErrBadPadding
  end.

(** ** The primitive suite

    The block cipher, MAC, hashes, signature schemes, key encoding and
    curve arithmetic come from the Go standard library.  They are an
    interface here; the laws they are assumed to satisfy are stated
    apart, in [PrimitivesOk]. *)

(** [big.Int.Bytes]: the big-endian bytes of the absolute value. *)
Fixpoint be_digits (fuel : nat) (n : Z) (acc : bytes) : bytes :=
  match fuel with
  | O => acc
  | S fuel' => if n <=? 0 then acc else be_digits fuel' (n / 256) (n mod 256 :: acc)
  end.

Definition big_Bytes (z : Z) : bytes :=
  be_digits (S (Z.to_nat (Z.log2 (Z.abs z)))) (Z.abs z) [].

(** A point [(X, Y)] of the curve. *)
Definition ECPoint : Type := Z * Z.

(** [ecdsa.PrivateKey]: the embedded public point and the scalar [D]. *)
Record ECDSAPrivateKey : Type := {
  ec_PublicKey : ECPoint;
  ec_D : Z
}.

Class Primitives : Type := {
  RSAPrivateKey : Type;
  RSAPublicKey : Type;
  rsa_PublicKey : RSAPrivateKey -> RSAPublicKey;
  (* cipher.NewCBCEncrypter(block, iv).CryptBlocks, on full blocks *)
  cbc_encrypt : bytes -> bytes -> bytes -> bytes;
  cbc_decrypt : bytes -> bytes -> bytes -> bytes;
  hmac_sha256 : bytes -> bytes -> bytes;
  sha256_Sum256 : bytes -> bytes;
  sha512_Sum512 : bytes -> bytes;
  (* ecdsa.Sign with its entropy, ecdsa.Verify *)
  ecdsa_Sign : bytes -> ECDSAPrivateKey -> bytes -> option (Z * Z);
  ecdsa_Verify : ECPoint -> bytes -> Z -> Z -> bool;
  rsa_SignPKCS1v15 : RSAPrivateKey -> bytes -> option bytes;
  rsa_VerifyPKCS1v15 : RSAPublicKey -> bytes -> bytes -> bool;
  (* json encoding of struct{ R, S *big.Int } *)
  json_Marshal : Z * Z -> bytes;
  json_Unmarshal : bytes -> option (Z * Z);
  (* Curve.ScalarBaseMult and Curve.ScalarMult of P-256 *)
  curve_ScalarBaseMult : bytes -> ECPoint;
  curve_ScalarMult : ECPoint -> bytes -> ECPoint;
  (* x509 PKIX encoding of public keys *)
  x509_Marshal_ecdsa : ECPoint -> bytes;
  x509_Marshal_rsa : RSAPublicKey -> bytes;
  x509_Parse : bytes -> option (ECPoint + RSAPublicKey)
}.

(** A key pair as [ecdsa.GenerateKey] makes it: the public point is the
    base point times [D]. *)
Definition ecdsa_key_valid `{Primitives} (priv : ECDSAPrivateKey) : Prop :=
  ec_PublicKey priv = curve_ScalarBaseMult (big_Bytes (ec_D priv)).

Class PrimitivesOk (P : Primitives) : Prop := {
  cbc_encrypt_length : forall key iv p,
    length (cbc_encrypt key iv p) = length p;
  cbc_decrypt_encrypt : forall key iv p,
    length key = 32%nat -> length iv = BlockSize ->
    (length p mod BlockSize = 0)%nat ->
    cbc_decrypt key iv (cbc_encrypt key iv p) = p;
  sha256_length : forall d, length (sha256_Sum256 d) = 32%nat;
  ecdsa_sign_verify : forall rnd priv h,
    ecdsa_key_valid priv ->
    exists r s, ecdsa_Sign rnd priv h = Some (r, s) /\
                ecdsa_Verify (ec_PublicKey priv) h r s = true;
  rsa_sign_verify : forall priv h,
    exists sig, rsa_SignPKCS1v15 priv h = Some sig /\
                rsa_VerifyPKCS1v15 (rsa_PublicKey priv) h sig = true;
  json_roundtrip : forall rs, json_Unmarshal (json_Marshal rs) = Some rs;
  x509_parse_ecdsa : forall q, x509_Parse (x509_Marshal_ecdsa q) = Some (inl q);
  x509_parse_rsa : forall k, x509_Parse (x509_Marshal_rsa k) = Some (inr k);
  scalar_mult_comm : forall a b,
    (curve_ScalarMult (curve_ScalarBaseMult a) b).1 =
    (curve_ScalarMult (curve_ScalarBaseMult b) a).1
}.

(** The shape of the decrypting cipher: as many bytes out as in, and
    bytes out for bytes in. *)
Class CipherShape (P : Primitives) : Prop := {
  cbc_decrypt_length : forall key iv c,
    length (cbc_decrypt key iv c) = length c;
  cbc_decrypt_bytes : forall key iv c,
    Forall is_byte key -> Forall is_byte c -> Forall is_byte (cbc_decrypt key iv c)
}.

(** ** Package state *)

Definition AESKeySize : nat := 32.
Definition HMACKeySize : nat := 32.
Definition NonceSize : nat := 16.
Definition MaxTimeDifference : Z := 30.
Definition NonceCleanupInterval : Duration := 5 * Minute.
Definition MaxNonceStorage : Z := 10000.

Definition maxConcurrentOps : Z := 100.
Definition minOpInterval : Duration := 10 * Millisecond.

Record NonceTracker : Type := {
  nt_nonces : gmap (list Z) Time;
  nt_maxSize : Z;
  nt_cleanupInterval : Duration
}.

(** The steps of the receive path, recorded as they are entered. *)
Inductive Check : Type :=
| CkFreshness | CkReplay | CkMAC | CkECDSA | CkRSA | CkDecrypt.

(** The package-level variables of the codec.  [checks] is a ghost log
    of the receive path steps entered so far, newest last; no operation
    reads it.  The rate-limit map is touched by [RateLimitCheck] alone,
    which threads it by itself. *)
Record World : Type := {
  globalNonceTracker : NonceTracker;
  concurrentOps : Z;
  checks : list Check
}.

Definition set_tracker (nt : NonceTracker) (w : World) : World :=
  {| globalNonceTracker := nt; concurrentOps := concurrentOps w; checks := checks w |}.

Definition set_concurrentOps (c : Z) (w : World) : World :=
  {| globalNonceTracker := globalNonceTracker w; concurrentOps := c; checks := checks w |}.

Definition enter (c : Check) (w : World) : World :=
  {| globalNonceTracker := globalNonceTracker w; concurrentOps := concurrentOps w; checks := checks w ++ [c] |}.

Definition NewNonceTracker (maxSize : Z) (cleanupInterval : Duration) : NonceTracker :=
  {| nt_nonces := ∅; nt_maxSize := maxSize; nt_cleanupInterval := cleanupInterval |}.

Definition initial_world : World :=
  {| globalNonceTracker := NewNonceTracker MaxNonceStorage NonceCleanupInterval;
     concurrentOps := 0; checks := [] |}.

(** ** Nonce tracker *)

Definition with_nonces (m : gmap (list Z) Time) (nt : NonceTracker) : NonceTracker :=
  {| nt_nonces := m; nt_maxSize := nt_maxSize nt;
     nt_cleanupInterval := nt_cleanupInterval nt |}.

(** Deletes every entry stamped before [now - cleanupInterval]. *)
Definition cleanupOldNonces (nt : NonceTracker) (now : Time) : NonceTracker :=
  let cutoff := Time_Add now (- nt_cleanupInterval nt) in
  with_nonces
    (filter (fun kt : list Z * Time => Time_Before kt.2 cutoff = false) (nt_nonces nt))
    nt.

(** [now_sweep] is the clock reading of the sweep (used only when the
    sweep runs) and [now_insert] the one stamped on the new entry. *)
Definition AddNonce (nt : NonceTracker) (nonce : bytes)
    (now_sweep now_insert : Time) : option error * NonceTracker :=
  match nt_nonces nt !! nonce with
  | Some _ => (Some ErrReplay, nt)
  | None =>
      let nt1 :=
        if nt_maxSize nt <=? Z.of_nat (size (nt_nonces nt))
        then cleanupOldNonces nt now_sweep else nt in
      (None, with_nonces (<[nonce := now_insert]> (nt_nonces nt1)) nt1)
  end.

Definition Reset (nt : NonceTracker) : NonceTracker := with_nonces ∅ nt.

Definition GetCount (nt : NonceTracker) : Z := Z.of_nat (size (nt_nonces nt)).

(** The package-level entry points on the global tracker.  [now] is the
    clock reading of the sweep. *)
Definition ClearOldNonces (now : Time) (w : World) : World :=
  set_tracker (cleanupOldNonces (globalNonceTracker w) now) w.

Definition GetNonceCount (w : World) : Z := GetCount (globalNonceTracker w).

Definition ResetNonceStorage (w : World) : World :=
  set_tracker (Reset (globalNonceTracker w)) w.

(** ** Admission control *)

(** One call of [RateLimitCheck] under its mutex, at clock reading [now]. *)
Definition RateLimitCheck (clientID : string) (now : Time)
    (m : gmap string Time) : option error * gmap string Time :=
  let limited :=
    match m !! clientID with
    | Some lastOp => Time_Sub now lastOp <? minOpInterval
    | None => false
    end in
  if limited then (Some ErrRateLimit, m)
  else
    let m1 := <[clientID := now]> m in
    let cutoff := Time_Add now (- Minute) in
    (None, filter (fun it : string * Time => Time_Before it.2 cutoff = false) m1).

(** A history of calls, each with its client and clock reading, run one
    after the other; next to the map it keeps, as a ghost, the time of
    each client's last accepted call. *)
Definition rl_step (st : gmap string Time * gmap string Time)
    (call : string * Time) : gmap string Time * gmap string Time :=
  match RateLimitCheck call.1 call.2 st.1 with
  | (None, m') => (m', <[call.1 := call.2]> st.2)
  | (Some _, m') => (m', st.2)
  end.

Definition rl_run (calls : list (string * Time)) : gmap string Time * gmap string Time :=
  fold_left rl_step calls (∅, ∅).

(** The clock readings of a history never go back, starting from [T]. *)
Fixpoint clock_monotone (T : Time) (calls : list (string * Time)) : Prop :=
  match calls with
  | [] => True
  | call :: rest => T <= call.2 /\ clock_monotone call.2 rest
  end.

Definition last_reading (T : Time) (calls : list (string * Time)) : Time :=
  fold_left (fun _ call => call.2) calls T.

(** What ties the map to the history: an entry is the client's last
    accepted time, and a client whose last accepted time has no entry
    was evicted, more than a minute before [T]. *)
Definition rl_inv (st : gmap string Time * gmap string Time) (T : Time) : Prop :=
  (forall c t, st.1 !! c = Some t -> st.2 !! c = Some t) /\
  (forall c t, st.2 !! c = Some t -> st.1 !! c = None -> t + Minute < T).

(** [ConcurrencyCheck] run without interference: the load, the test and
    the add follow each other. *)
Definition ConcurrencyCheck (w : World) : option error * World :=
  let current := concurrentOps w in
  if maxConcurrentOps <=? current then (Some ErrConcurrency, w)
  else (None, set_concurrentOps (add64 (concurrentOps w) 1) w).

Definition ConcurrencyRelease (w : World) : World :=
  set_concurrentOps (add64 (concurrentOps w) (-1)) w.

Definition GetConcurrentOpsCount (w : World) : Z := concurrentOps w.

(** ** Symmetric encryption behind the concurrency guard *)

(** [aes.NewCipher]: the key is 16, 24 or 32 bytes long. *)
Definition aes_NewCipher (key : bytes) : option error :=
  if (length key =? 16)%nat || (length key =? 24)%nat || (length key =? 32)%nat
  then None else Some ErrKeySize.

(** [cipher.NewCBC...(block, iv).CryptBlocks(dst, src)] with [dst] as long
    as [src]: panics on a wrong IV length and on a partial block. *)
Definition CryptBlocks (f : bytes -> bytes) (iv src : bytes) : outcome bytes :=
  if negb (length iv =? BlockSize)%nat then Panic
  else if negb (length src mod BlockSize =? 0)%nat then Panic
  else Ok (f src).

Section Codec.
Context `{prim : Primitives}.

Definition AESEncrypt_admitted (key iv plaintext : bytes) : outcome bytes :=
  match aes_NewCipher key with
  | Some _ => Panic
  | None => CryptBlocks (cbc_encrypt key iv) iv (PKCS7Pad plaintext)
  end.

(** A denied call sleeps and returns [nil]; an admitted one releases its
    slot through [defer], on return and on panic alike. *)
Definition AESEncrypt (key iv plaintext : bytes) (w : World) : outcome bytes * World :=
  match ConcurrencyCheck w with
  | (Some _, w1) => (Ok [], w1)
  | (None, w1) => (AESEncrypt_admitted key iv plaintext, ConcurrencyRelease w1)
  end.

Definition AESDecrypt_admitted (key iv ciphertext : bytes) : outcome bytes :=
  match aes_NewCipher key with
  | Some e => Err e
  | None => obind (CryptBlocks (cbc_decrypt key iv) iv ciphertext) PKCS7Unpad
  end.

Definition AESDecrypt (key iv ciphertext : bytes) (w : World) : outcome bytes * World :=
  match ConcurrencyCheck w with
  | (Some e, w1) => (Err e, w1)
  | (None, w1) => (AESDecrypt_admitted key iv ciphertext, ConcurrencyRelease w1)
  end.

(** ** MAC *)

Fixpoint ct_fold (x y : bytes) (v : Z) : Z :=
  match x, y with
  | a :: x', b :: y' => ct_fold x' y' (Z.lor v (Z.lxor a b))
  | _, _ => v
  end.

(** [subtle.ConstantTimeCompare]. *)
Definition ConstantTimeCompare (x y : bytes) : Z :=
  if negb (length x =? length y)%nat then 0
  else if ct_fold x y 0 =? 0 then 1 else 0.

Definition GenerateHMAC (key data : bytes) : bytes := hmac_sha256 key data.

Definition VerifyHMAC (key data mac : bytes) : bool :=
  let expected := GenerateHMAC key data in
  ConstantTimeCompare mac expected =? 1.

(** ** Signatures *)

Definition SignECDSA (priv : ECDSAPrivateKey) (data rnd : bytes) : outcome bytes :=
  let h := sha512_Sum512 data in
  match ecdsa_Sign rnd priv h with
  | None => Fatal
  | Some rs => Ok (json_Marshal rs)
  end.

Definition VerifyECDSA (pubBytes data sig : bytes) : bool :=
  match x509_Parse pubBytes with
  | None => false
  | Some (inr _) => false
  | Some (inl pub) =>
      match json_Unmarshal sig with
      | None => false
      | Some (r, s) => ecdsa_Verify pub (sha512_Sum512 data) r s
      end
  end.

Definition SignRSA (priv : RSAPrivateKey) (data : bytes) : outcome bytes :=
  let h := sha256_Sum256 data in
  match rsa_SignPKCS1v15 priv h with
  | None => Fatal
  | Some sig => Ok sig
  end.

Definition VerifyRSA (pubBytes data sig : bytes) : bool :=
  match x509_Parse pubBytes with
  | None => false
  | Some (inl _) => false
  | Some (inr pub) => rsa_VerifyPKCS1v15 pub (sha256_Sum256 data) sig
  end.

Definition GenerateECDHKeys (priv : ECDSAPrivateKey) : ECDSAPrivateKey * bytes :=
  (priv, x509_Marshal_ecdsa (ec_PublicKey priv)).

Definition GenerateRSAKeys (priv : RSAPrivateKey) : RSAPrivateKey * bytes :=
  (priv, x509_Marshal_rsa (rsa_PublicKey priv)).

(** ** The envelope *)

Record Message : Type := {
  Timestamp : Z;
  Nonce : bytes;
  IV : bytes;
  Cipher : bytes;
  HMAC : bytes;
  Signature : bytes;
  PubKey : bytes;
  RSASig : bytes
}.

(** Field updates on a copy of an envelope, as the attack tests make them
    ([oldMsg.Timestamp = ...]). *)
Definition with_Timestamp (ts : Z) (m : Message) : Message :=
  {| Timestamp := ts; Nonce := Nonce m; IV := IV m; Cipher := Cipher m;
     HMAC := HMAC m; Signature := Signature m; PubKey := PubKey m;
     RSASig := RSASig m |}.

Definition with_HMAC (mac : bytes) (m : Message) : Message :=
  {| Timestamp := Timestamp m; Nonce := Nonce m; IV := IV m; Cipher := Cipher m;
     HMAC := mac; Signature := Signature m; PubKey := PubKey m;
     RSASig := RSASig m |}.

Definition omap {A B} (f : A -> B) (x : outcome A) : outcome B :=
  obind x (fun a => Ok (f a)).

(** [iv] and [nonce] are what [rand.Read] delivers, [rnd] the entropy of
    the ECDSA signature and [now] the value of [time.Now().Unix()]. *)
Definition CreateSecureMessage (plaintext sharedSecret : bytes)
    (ecdsaPriv : ECDSAPrivateKey) (ecdhPub : bytes) (rsaPriv : RSAPrivateKey)
    (iv nonce rnd : bytes) (now : Z) (w : World) : outcome Message * World :=
  match slice_to sharedSecret AESKeySize with
  | Ok key =>
      match AESEncrypt key iv plaintext w with
      | (Ok ciphertext, w1) =>
          (obind (slice_from sharedSecret AESKeySize) (fun macKey =>
           let hmacValue := GenerateHMAC macKey ciphertext in
           obind (SignECDSA ecdsaPriv ciphertext rnd) (fun ecdsaSig =>
           obind (SignRSA rsaPriv ciphertext) (fun rsaSig =>
           Ok {| Timestamp := now; Nonce := nonce; IV := iv;
                 Cipher := ciphertext; HMAC := hmacValue;
                 Signature := ecdsaSig; PubKey := ecdhPub;
                 RSASig := rsaSig |}))), w1)
      | (Err e, w1) => (Err e, w1)
      | (Panic, w1) => (Panic, w1)
      | (Fatal, w1) => (Fatal, w1)
      end
  | Err e => (Err e, w)
  | Panic => (Panic, w)
  | Fatal => (Fatal, w)
  end.

(** The timestamp test of the receive path, in [int64] arithmetic. *)
Definition timestamp_rejected (now ts : Z) : bool :=
  (MaxTimeDifference <? sub64 now ts) || (now <? sub64 ts MaxTimeDifference).

(** [now] is the value of [time.Now().Unix()]; [now_sweep] and
    [now_insert] are the clock readings taken inside [AddNonce]. *)
Definition VerifyAndDecryptMessage (msg : Message) (sharedSecret rsaPubKey : bytes)
    (now : Z) (now_sweep now_insert : Time) (w : World) : outcome bytes * World :=
  let w := enter CkFreshness w in
  if timestamp_rejected now (Timestamp msg) then (Err ErrTimestamp, w)
  else
    let w := enter CkReplay w in
    match AddNonce (globalNonceTracker w) (Nonce msg) now_sweep now_insert with
    | (Some e, nt) => (Err e, set_tracker nt w)
    | (None, nt) =>
        let w := enter CkMAC (set_tracker nt w) in
        match slice_from sharedSecret AESKeySize with
        | Ok macKey =>
            if negb (VerifyHMAC macKey (Cipher msg) (HMAC msg)) then (Err ErrHMAC, w)
            else
              let w := enter CkECDSA w in
              if negb (VerifyECDSA (PubKey msg) (Cipher msg) (Signature msg))
              then (Err ErrECDSA, w)
              else
                let w := enter CkRSA w in
                if negb (VerifyRSA rsaPubKey (Cipher msg) (RSASig msg))
                then (Err ErrRSA, w)
                else
                  let w := enter CkDecrypt w in
                  match slice_to sharedSecret AESKeySize with
                  | Ok key =>
                      match AESDecrypt key (IV msg) (Cipher msg) w with
                      | (Ok plaintext, w1) => (Ok plaintext, w1)
                      | (Err e, w1) => (Err (ErrDecrypt e), w1)
                      | (Panic, w1) => (Panic, w1)
                      | (Fatal, w1) => (Fatal, w1)
                      end
                  | Err e => (Err e, w)
                  | Panic => (Panic, w)
                  | Fatal => (Fatal, w)
                  end
        | Err e => (Err e, w)
        | Panic => (Panic, w)
        | Fatal => (Fatal, w)
        end
    end.

(** ** The receive path as the specification words it

    Six checks in a fixed order, run one after the other until the first
    one fails.  [check_passes] is the verdict of a single check on its
    own; [run_until_failure] is the list of checks that get run. *)






(** ** Key agreement *)

Definition ComputeSharedSecret (priv : ECDSAPrivateKey) (peerPubBytes : bytes)
    : outcome bytes :=
  match x509_Parse peerPubBytes with
  | None => Panic
  | Some (inr _) => Panic
  | Some (inl pub) =>
      let x := (curve_ScalarMult pub (big_Bytes (ec_D priv))).1 in
      Ok (sha256_Sum256 (big_Bytes x))
  end.

Record DHParams : Type := { dh_P : Z; dh_G : Z }.

Record DHKeyPair : Type := {
  dh_Private : Z;
  dh_Public : Z;
  dh_Params : DHParams
}.

(** RFC 3526, group 14. *)
Definition GenerateStandardDHParams : DHParams :=
  {| dh_P := 0xFFFFFFFFFFFFFFFFC90FDAA22168C234C4C6628B80DC1CD129024E088A67CC74020BBEA63B139B22514A08798E3404DDEF9519B3CD3A431B302B0A6DF25F14374FE1356D6D51C245E485B576625E7EC6F44C42E9A637ED6B0BFF5CB6F406B7EDEE386BFB5A899FA5AE9F24117C4B1FE649286651ECE45B3DC2007CB8A163BF0598DA48361C55D39A69163FA8FD24CF5F83655D23DCA3AD961C62F356208552BB9ED529077096966D670C354E4ABC9804F1746C08CA18217C32905E462E36CE3BE39E772C180E86039B2783A2EC07A28FB5C55DF06F4C52C9DE2BCBF6955817183995497CEA956AE515D2261898FA051015728E5A8AACAA68FFFFFFFFFFFFFFFF;
     dh_G := 2 |}.

(** [new(big.Int).Exp(x, y, m)] for [y >= 0] or [m = 0].  With a modulus
    and a negative exponent Go goes through a modular inverse; that case
    is outside this model ([None]) and no generated key reaches it. *)
Definition big_Exp (x y m : Z) : option Z :=
  if m =? 0 then Some (if y <=? 0 then 1 else x ^ y)
  else if y <? 0 then None
  else Some (x ^ y mod Z.abs m).

(** [rand.Int(rand.Reader, max)]: panics unless [max > 0]; [draw] is the
    entropy, reduced to the interval [[0, max)]. *)
Definition rand_Int (draw max : Z) : outcome Z :=
  if max <=? 0 then Panic else Ok (draw mod max).

Definition GenerateDHKeyPair (params : DHParams) (draw : Z) : outcome DHKeyPair :=
  obind (rand_Int draw (dh_P params - 1)) (fun private0 =>
  let private := private0 + 1 in
  match big_Exp (dh_G params) private (dh_P params) with
  | None => Panic
  | Some public =>
      Ok {| dh_Private := private; dh_Public := public; dh_Params := params |}
  end).

Definition ComputeDHSharedSecret (privateKey peerPublicKey : Z) (params : DHParams)
    : option bytes :=
  match big_Exp peerPublicKey privateKey (dh_P params) with
  | None => None
  | Some sharedSecret => Some (sha256_Sum256 (big_Bytes sharedSecret))
  end.

(** ** Authenticated Diffie-Hellman exchange *)

Inductive dh_error : Type :=
| DHErrSign        (* rsa.SignPKCS1v15 failed *)
| DHErrParse       (* x509.ParsePKIXPublicKey failed *)
| DHErrNotRSA      (* the peer's key is not an RSA key *)
| DHErrSignature   (* the signature over the peer's public value is wrong *).

Inductive dh_result (A : Type) : Type :=
| DHOk (a : A)
| DHErr (e : dh_error)
| DHPanic.

Arguments DHOk {A} a.
Arguments DHErr {A} e.
Arguments DHPanic {A}.

Definition RSASignDHPublicKey (rsaPrivate : RSAPrivateKey) (dhPublic : Z)
    : dh_result bytes :=
  let hash := sha256_Sum256 (big_Bytes dhPublic) in
  match rsa_SignPKCS1v15 rsaPrivate hash with
  | Some signature => DHOk signature
  | None => DHErr DHErrSign
  end.

(** [true] stands for a [nil] error. *)
Definition RSAVerifyDHPublicKey (rsaPublic : RSAPublicKey) (dhPublic : Z)
    (signature : bytes) : bool :=
  let hash := sha256_Sum256 (big_Bytes dhPublic) in
  rsa_VerifyPKCS1v15 rsaPublic hash signature.

Record DHKeyExchange : Type := {
  ex_DHKeyPair : DHKeyPair;
  ex_DHSignature : bytes;
  ex_RSAPublicKey : bytes
}.

(** [draw] is the entropy of the private exponent. *)
Definition PerformDHKeyExchange (rsaPrivate : RSAPrivateKey) (draw : Z)
    : dh_result DHKeyExchange :=
  let params := GenerateStandardDHParams in
  match GenerateDHKeyPair params draw with
  | Ok dhKeyPair =>
      match RSASignDHPublicKey rsaPrivate (dh_Public dhKeyPair) with
      | DHOk signature =>
          DHOk {| ex_DHKeyPair := dhKeyPair; ex_DHSignature := signature;
                  ex_RSAPublicKey := x509_Marshal_rsa (rsa_PublicKey rsaPrivate) |}
      | DHErr e => DHErr e
      | DHPanic => DHPanic
      end
  | _ => DHPanic
  end.

(** [None] only where [big_Exp] is outside its model. *)
Definition VerifyAndComputeSharedSecret (ourDHPrivate : Z) (ourDHParams : DHParams)
    (peerExchange : DHKeyExchange) : option (dh_result bytes) :=
  match x509_Parse (ex_RSAPublicKey peerExchange) with
  | None => Some (DHErr DHErrParse)
  | Some (inl _) => Some (DHErr DHErrNotRSA)
  | Some (inr rsaPub) =>
      if negb (RSAVerifyDHPublicKey rsaPub (dh_Public (ex_DHKeyPair peerExchange))
                 (ex_DHSignature peerExchange))
      then Some (DHErr DHErrSignature)
      else
        match ComputeDHSharedSecret ourDHPrivate
                (dh_Public (ex_DHKeyPair peerExchange)) ourDHParams with
        | Some sharedSecret => Some (DHOk sharedSecret)
        | None => None
        end
  end.

End Codec.

Arguments DHOk {A} a.
Arguments DHErr {A} e.
Arguments DHPanic {A}.

(** ** The codec without replay tracking and without admission control

    The earlier variant of the package: [AESEncrypt] and [AESDecrypt]
    call the cipher directly, the freshness window is 60 seconds and
    closed to the future, and no nonce is recorded.  Nothing here touches
    package state. *)

Module Legacy.
Section LegacyCodec.
Context `{prim : Primitives}.

Definition MaxTimeDifference : Z := 60.

Definition AESEncrypt (key iv plaintext : bytes) : outcome bytes :=
  match aes_NewCipher key with
  | Some _ => Panic
  | None => CryptBlocks (cbc_encrypt key iv) iv (PKCS7Pad plaintext)
  end.

Definition AESDecrypt (key iv ciphertext : bytes) : outcome bytes :=
  match aes_NewCipher key with
  | Some e => Err e
  | None => obind (CryptBlocks (cbc_decrypt key iv) iv ciphertext) PKCS7Unpad
  end.

Definition CreateSecureMessage (plaintext sharedSecret : bytes)
    (ecdsaPriv : ECDSAPrivateKey) (ecdhPub : bytes) (rsaPriv : RSAPrivateKey)
    (iv nonce rnd : bytes) (now : Z) : outcome Message :=
  obind (slice_to sharedSecret AESKeySize) (fun key =>
  obind (AESEncrypt key iv plaintext) (fun ciphertext =>
  obind (slice_from sharedSecret AESKeySize) (fun macKey =>
  let hmacValue := GenerateHMAC macKey ciphertext in
  obind (SignECDSA ecdsaPriv ciphertext rnd) (fun ecdsaSig =>
  obind (SignRSA rsaPriv ciphertext) (fun rsaSig =>
  Ok {| Timestamp := now; Nonce := nonce; IV := iv;
        Cipher := ciphertext; HMAC := hmacValue;
        Signature := ecdsaSig; PubKey := ecdhPub;
        RSASig := rsaSig |}))))).

Definition timestamp_rejected (now ts : Z) : bool :=
  (MaxTimeDifference <? sub64 now ts) || (now <? ts).

Definition VerifyAndDecryptMessage (msg : Message) (sharedSecret rsaPubKey : bytes)
    (now : Z) : outcome bytes :=
  if timestamp_rejected now (Timestamp msg) then Err ErrTimestamp
  else
    obind (slice_from sharedSecret AESKeySize) (fun macKey =>
    if negb (VerifyHMAC macKey (Cipher msg) (HMAC msg)) then Err ErrHMAC
    else if negb (VerifyECDSA (PubKey msg) (Cipher msg) (Signature msg))
    then Err ErrECDSA
    else if negb (VerifyRSA rsaPubKey (Cipher msg) (RSASig msg)) then Err ErrRSA
    else
      obind (slice_to sharedSecret AESKeySize) (fun key =>
      match AESDecrypt key (IV msg) (Cipher msg) with
      | Err e => Err (ErrDecrypt e)
      | r => r
      end)).

End LegacyCodec.
End Legacy.

(** ** Timing statistics of the MAC check *)

Record TimingStats : Type := {
  measurements : list Duration;
  ts_maxSize : Z
}.



Definition TimingStats_Reset (ts : TimingStats) : TimingStats :=
  {| measurements := []; ts_maxSize := ts_maxSize ts |}.



(** ** Goroutines sharing the in-flight counter

    [ConcurrencyCheck] is three steps: [atomic.LoadInt64], the comparison
    on the loaded value, and [atomic.AddInt64].  Each atomic operation is
    one step of the goroutine that performs it; steps of different
    goroutines interleave freely.  A guarded operation ([AESEncrypt],
    [AESDecrypt]) is [ConcurrencyCheck], then the cipher work, then the
    deferred [ConcurrencyRelease]. *)

Module Conc.

Inductive pc : Type :=
| Start                      (* about to load the counter *)
| Loaded (current : Z)       (* holds the loaded value, about to test and add *)
| Holding                   (* has added 1; the release is deferred *)
| Finished (admitted : bool) (* returned: denied, or admitted and released *).

Record state : Type := { counter : Z; threads : list pc }.

(** The next atomic step of one goroutine on the shared counter. *)
Definition step_thread (c : Z) (p : pc) : option (Z * pc) :=
  match p with
  | Start => Some (c, Loaded c)
  | Loaded current =>
      if maxConcurrentOps <=? current then Some (c, Finished false)
      else Some (add64 c 1, Holding)
  | Holding => Some (add64 c (-1), Finished true)
  | Finished _ => None
  end.

(** Goroutine [i] takes its next step. *)
Definition step (i : nat) (s : state) : option state :=
  match threads s !! i with
  | None => None
  | Some p =>
      match step_thread (counter s) p with
      | None => None
      | Some (c', p') => Some {| counter := c'; threads := <[i := p']> (threads s) |}
      end
  end.

Definition step_rel (s s' : state) : Prop := exists i, step i s = Some s'.

(** Running a schedule: the goroutine to step, one after the other. *)
Fixpoint run (sched : list nat) (s : state) : option state :=
  match sched with
  | [] => Some s
  | i :: rest =>
      match step i s with
      | None => None
      | Some s' => run rest s'
      end
  end.

(** [n] goroutines about to enter a guarded operation, nothing in flight. *)
Definition init (n : nat) : state := {| counter := 0; threads := repeat Start n |}.

Definition is_admitted (p : pc) : bool :=
  match p with Holding => true | _ => false end.

Definition in_flight (s : state) : Z :=
  Z.of_nat (length (filter (fun p => is_admitted p = true) (threads s))).

(** Every goroutine loads first, then every goroutine tests and adds. *)
Definition all_load_then_all_add (n : nat) : list nat := seq 0 n ++ seq 0 n.

End Conc.

(** ** The chat program: key exchange, sending, receiving

    The decisions of the chat program around the package, without its
    network and terminal traffic: what the peer sent is an input, what is
    printed is the returned verdict. *)

Section Chat.
Context `{prim : Primitives}.

Record ConnectionInfo : Type := {
  ECDSAPrivate : ECDSAPrivateKey;
  ECDSAPublic : bytes;
  RSAPrivate : RSAPrivateKey;
  RSAPublic : bytes;
  PeerECDSA : bytes;
  PeerRSA : bytes;
  SharedSecret : bytes;
  ci_NonceTracker : gmap (list Z) bool
}.

(** The two generated key pairs are inputs. *)
Definition NewConnectionInfo (ecdsaPriv : ECDSAPrivateKey) (rsaPriv : RSAPrivateKey)
    : ConnectionInfo :=
  {| ECDSAPrivate := (GenerateECDHKeys ecdsaPriv).1;
     ECDSAPublic := (GenerateECDHKeys ecdsaPriv).2;
     RSAPrivate := (GenerateRSAKeys rsaPriv).1;
     RSAPublic := (GenerateRSAKeys rsaPriv).2;
     PeerECDSA := []; PeerRSA := []; SharedSecret := [];
     ci_NonceTracker := ∅ |}.

(** [peerECDSA] and [peerRSA] are the key data decoded from the peer. *)
Definition exchangeKeys (info : ConnectionInfo) (peerECDSA peerRSA : bytes)
    : outcome ConnectionInfo :=
  obind (ComputeSharedSecret (ECDSAPrivate info) peerECDSA) (fun secret =>
  Ok {| ECDSAPrivate := ECDSAPrivate info; ECDSAPublic := ECDSAPublic info;
        RSAPrivate := RSAPrivate info; RSAPublic := RSAPublic info;
        PeerECDSA := peerECDSA; PeerRSA := peerRSA; SharedSecret := secret;
        ci_NonceTracker := ci_NonceTracker info |}).

(** The envelope [sendMessages] builds for one line of text. *)
Definition sendMessage (info : ConnectionInfo) (text iv nonce rnd : bytes)
    (now : Z) (w : World) : outcome Message * World :=
  CreateSecureMessage text (SharedSecret info) (ECDSAPrivate info)
    (ECDSAPublic info) (RSAPrivate info) iv nonce rnd now w.

Inductive received : Type :=
| DroppedAsReplay             (* the connection's own tracker has the nonce *)
| Rejected (e : error)        (* the verification returned an error *)
| Delivered (plain : bytes).

Definition with_NonceTracker (t : gmap (list Z) bool) (info : ConnectionInfo)
    : ConnectionInfo :=
  {| ECDSAPrivate := ECDSAPrivate info; ECDSAPublic := ECDSAPublic info;
     RSAPrivate := RSAPrivate info; RSAPublic := RSAPublic info;
     PeerECDSA := PeerECDSA info; PeerRSA := PeerRSA info;
     SharedSecret := SharedSecret info; ci_NonceTracker := t |}.

(** One round of the loop of [receiveMessages], for one decoded envelope. *)
Definition receiveMessage (info : ConnectionInfo) (msg : Message)
    (now : Z) (now_sweep now_insert : Time) (w : World)
    : outcome received * ConnectionInfo * World :=
  match ci_NonceTracker info !! Nonce msg with
  | Some _ => (Ok DroppedAsReplay, info, w)
  | None =>
      let t1 := <[Nonce msg := true]> (ci_NonceTracker info) in
      let t2 := if 1000 <? Z.of_nat (size t1) then ∅ else t1 in
      let info' := with_NonceTracker t2 info in
      match VerifyAndDecryptMessage msg (SharedSecret info) (PeerRSA info)
              now now_sweep now_insert w with
      | (Ok plain, w') => (Ok (Delivered plain), info', w')
      | (Err e, w') => (Ok (Rejected e), info', w')
      | (Panic, w') => (Panic, info', w')
      | (Fatal, w') => (Fatal, info', w')
      end
  end.

End Chat.

(** ** A small instance of the primitive suite

    A toy suite on which the operations can be run: a byte-wise XOR
    cipher, a MAC that prefixes the key, signatures that carry the
    signer's public value, and the additive group modulo 251 for the
    curve.  It satisfies the laws of [PrimitivesOk] and is used to
    evaluate the operations on concrete inputs. *)

Module Toy.

Definition be_value (b : bytes) : Z := fold_left (fun acc x => acc * 256 + x) b 0.

Definition digest (b : bytes) : Z := fold_left Z.add b 0.

Definition xor_key (key : bytes) : Z := hd 0 key.

Definition pad32 (d : bytes) : bytes := take 32 (d ++ repeat 0 32).

Definition parse (b : bytes) : option (ECPoint + Z) :=
  match b with
  | [1; x; y] => Some (inl (x, y))
  | [2; k] => Some (inr k)
  | _ => None
  end.

Definition unmarshal (b : bytes) : option (Z * Z) :=
  match b with
  | [r; s] => Some (r, s)
  | _ => None
  end.

Definition list_eqb (x y : bytes) : bool := bool_decide (x = y).

Definition suite : Primitives := {|
  RSAPrivateKey := Z;
  RSAPublicKey := Z;
  rsa_PublicKey := fun d => d * 7 mod 251;
  cbc_encrypt := fun key iv p => map (Z.lxor (xor_key key)) p;
  cbc_decrypt := fun key iv c => map (Z.lxor (xor_key key)) c;
  hmac_sha256 := fun key data => key ++ data;
  sha256_Sum256 := pad32;
  sha512_Sum512 := fun d => d;
  ecdsa_Sign := fun rnd priv h => Some ((ec_PublicKey priv).1, digest h);
  ecdsa_Verify := fun pub h r s => (r =? pub.1) && (s =? digest h);
  rsa_SignPKCS1v15 := fun d h => Some ((d * 7 mod 251) :: h);
  rsa_VerifyPKCS1v15 := fun pub h sig => list_eqb sig (pub :: h);
  json_Marshal := fun rs => [rs.1; rs.2];
  json_Unmarshal := unmarshal;
  curve_ScalarBaseMult := fun k => (be_value k mod 251, 0);
  curve_ScalarMult := fun q k => (q.1 * be_value k mod 251, 0);
  x509_Marshal_ecdsa := fun q => [1; q.1; q.2];
  x509_Marshal_rsa := fun k => [2; k];
  x509_Parse := parse
|}.

(** Concrete key material and inputs. *)
Definition alice : ECDSAPrivateKey := {| ec_PublicKey := (5, 0); ec_D := 5 |}.
Definition bob : ECDSAPrivateKey := {| ec_PublicKey := (9, 0); ec_D := 9 |}.
Definition alice_pub : bytes := [1; 5; 0].
Definition bob_pub : bytes := [1; 9; 0].
Definition rsa_priv : Z := 3.
Definition rsa_pub : bytes := [2; 21].
Definition secret64 : bytes := repeat 7 64.
Definition iv16 : bytes := repeat 1 16.
Definition nonce16 : bytes := repeat 2 16.
Definition hello : bytes := [104; 101; 108; 108; 111].

Definition saturated_world : World := set_concurrentOps 100 initial_world.

End Toy.

(** ** Running the codec on the toy suite

    The envelope the toy sender builds in a given world, and its
    verification at a given clock reading. *)
Definition toy_create (w : World) : outcome Message :=
  (CreateSecureMessage (prim := Toy.suite) Toy.hello Toy.secret64 Toy.alice
     Toy.alice_pub Toy.rsa_priv Toy.iv16 Toy.nonce16 [] 1700000000 w).1.

Definition toy_verify (m : outcome Message) (now : Z) (w : World) : outcome bytes :=
  match m with
  | Ok msg =>
      (VerifyAndDecryptMessage (prim := Toy.suite) msg Toy.secret64 Toy.rsa_pub
         now 1700000000000000000 1700000000000000000 w).1
  | _ => Panic
  end.

Definition toy_verify_world (m : outcome Message) (now : Z) (w : World)
    : outcome bytes * World :=
  match m with
  | Ok msg =>
      VerifyAndDecryptMessage (prim := Toy.suite) msg Toy.secret64 Toy.rsa_pub
        now 1700000000000000000 1700000000000000000 w
  | _ => (Panic, w)
  end.

(** * Properties *)

(** ** Padding *)

Lemma padding_ok_repeat (b : Z) (n : nat) :
  to_byte b = b -> padding_ok (repeat b n) b = true.
Proof.
  intros Hb. induction n as [|n IH]; simpl; [reflexivity|].
  rewrite Hb, Z.eqb_refl. exact IH.
Qed.

Lemma pad_amount_range (n : nat) :
  (1 <= BlockSize - n mod BlockSize <= BlockSize)%nat.
Proof.
  unfold BlockSize.
  pose proof (Nat.mod_upper_bound n 16 ltac:(lia)). lia.
Qed.

Lemma PKCS7Pad_length (data : bytes) :
  (length (PKCS7Pad data) mod BlockSize = 0)%nat /\
  (BlockSize <= length (PKCS7Pad data))%nat.
Proof.
  unfold PKCS7Pad. rewrite length_app, repeat_length.
  pose proof (pad_amount_range (length data)) as Hr.
  unfold BlockSize in *.
  pose proof (Nat.div_mod_eq (length data) 16) as Hd.
  split; [|lia].
  replace (length data + (16 - length data mod 16))%nat
    with ((length data / 16 + 1) * 16)%nat by lia.
  apply Nat.Div0.mod_mul.
Qed.

Lemma PKCS7_roundtrip (data : bytes) :
  PKCS7Unpad (PKCS7Pad data) = Ok data.
Proof.
  unfold PKCS7Unpad, PKCS7Pad.
  pose proof (pad_amount_range (length data)) as Hr.
  set (pad := (BlockSize - length data mod BlockSize)%nat) in *.
  assert (Hb : to_byte (Z.of_nat pad) = Z.of_nat pad).
  { unfold to_byte. apply Z.mod_small. unfold BlockSize in Hr. lia. }
  rewrite Hb.
  destruct pad as [|p] eqn:Hp; [lia|].
  replace (repeat (Z.of_nat (S p)) (S p))
    with (repeat (Z.of_nat (S p)) p ++ [Z.of_nat (S p)])
    by (rewrite <- repeat_cons; reflexivity).
  rewrite app_assoc, last_snoc.
  rewrite <- app_assoc.
  replace (repeat (Z.of_nat (S p)) p ++ [Z.of_nat (S p)])
    with (repeat (Z.of_nat (S p)) (S p))
    by (rewrite <- repeat_cons; reflexivity).
  rewrite length_app, repeat_length.
  assert (H1 : (Z.of_nat BlockSize <? Z.of_nat (S p)) = false)
    by (apply Z.ltb_ge; lia).
  assert (H2 : (Z.of_nat (S p) =? 0) = false) by (apply Z.eqb_neq; lia).
  assert (H3 : (Z.of_nat (length data + S p) <? Z.of_nat (S p)) = false)
    by (apply Z.ltb_ge; lia).
  assert (H4 : (Z.of_nat (S p) <? 0) = false) by (apply Z.ltb_ge; lia).
  rewrite H1, H2, H3, H4. simpl orb. cbv iota.
  rewrite Nat2Z.id.
  replace (length data + S p - S p)%nat with (length data) by lia.
  rewrite drop_app_length, take_app_length.
  rewrite padding_ok_repeat by exact Hb. reflexivity.
Qed.

(** ** The toy suite satisfies the laws *)

Lemma toy_xor_twice (k : Z) (p : bytes) : map (Z.lxor k) (map (Z.lxor k) p) = p.
Proof.
  induction p as [|a p IH]; simpl; [reflexivity|].
  rewrite IH, <- Z.lxor_assoc, Z.lxor_nilpotent, Z.lxor_0_l. reflexivity.
Qed.

Lemma toy_suite_ok : PrimitivesOk Toy.suite.
Proof.
  split; simpl.
  - intros key iv p. apply length_map.
  - intros key iv p _ _ _. apply toy_xor_twice.
  - intros d. unfold Toy.pad32. rewrite length_take, length_app, repeat_length. lia.
  - intros rnd priv h _. exists (ec_PublicKey priv).1, (Toy.digest h).
    split; [reflexivity|]. rewrite !Z.eqb_refl. reflexivity.
  - intros priv h. exists ((priv * 7 mod 251) :: h).
    split; [reflexivity|]. unfold Toy.list_eqb. apply bool_decide_eq_true. reflexivity.
  - intros [r s]. reflexivity.
  - intros [x y]. reflexivity.
  - intros k. reflexivity.
  - intros a b. simpl.
    rewrite Z.mul_mod_idemp_l by lia.
    rewrite (Z.mul_mod_idemp_l (Toy.be_value b)) by lia.
    f_equal. lia.
Qed.


(** ** Integer and clock facts *)

Lemma wrap64_small (z : Z) : in_int64 z -> wrap64 z = z.
Proof.
  unfold in_int64, MinInt64, MaxInt64, wrap64. intros Hz.
  rewrite Z.mod_small by lia. lia.
Qed.

Lemma wrap64_range (z : Z) : in_int64 (wrap64 z).
Proof.
  unfold in_int64, MinInt64, MaxInt64, wrap64.
  pose proof (Z.mod_pos_bound (z + 2 ^ 63) (2 ^ 64) ltac:(lia)). lia.
Qed.

(** Where neither subtraction overflows, the timestamp test is the
    two-sided window on the mathematical difference. *)
Lemma timestamp_rejected_exact (now ts : Z) :
  in_int64 (now - ts) -> in_int64 (ts - MaxTimeDifference) ->
  timestamp_rejected now ts = true <->
  (MaxTimeDifference < now - ts \/ MaxTimeDifference < ts - now).
Proof.
  intros H1 H2. unfold timestamp_rejected, sub64.
  rewrite !wrap64_small by assumption.
  rewrite orb_true_iff, !Z.ltb_lt. lia.
Qed.

Lemma timestamp_in_window (now ts : Z) :
  0 <= ts <= MaxInt64 ->
  - MaxTimeDifference <= now - ts <= MaxTimeDifference ->
  timestamp_rejected now ts = false.
Proof.
  intros Hts Hw.
  destruct (timestamp_rejected now ts) eqn:E; [|reflexivity].
  apply timestamp_rejected_exact in E.
  - lia.
  - unfold in_int64, MinInt64, MaxInt64, MaxTimeDifference in *. lia.
  - unfold in_int64, MinInt64, MaxInt64, MaxTimeDifference in *. lia.
Qed.

(** ** Facts about the codec's building blocks *)

Lemma ct_fold_refl (x : bytes) (v : Z) : ct_fold x x v = v.
Proof.
  revert v. induction x as [|a x IH]; intros v; simpl; [reflexivity|].
  rewrite Z.lxor_nilpotent, Z.lor_0_r. apply IH.
Qed.

Lemma ConstantTimeCompare_refl (x : bytes) : ConstantTimeCompare x x = 1.
Proof.
  unfold ConstantTimeCompare. rewrite Nat.eqb_refl. simpl.
  rewrite ct_fold_refl. reflexivity.
Qed.

Lemma slice_to_ok (s : bytes) (n : nat) :
  (n <= length s)%nat -> slice_to s n = Ok (take n s).
Proof.
  intros H. unfold slice_to.
  destruct (Nat.leb_spec n (length s)); [reflexivity|lia].
Qed.

Lemma slice_from_ok (s : bytes) (n : nat) :
  (n <= length s)%nat -> slice_from s n = Ok (drop n s).
Proof.
  intros H. unfold slice_from.
  destruct (Nat.leb_spec n (length s)); [reflexivity|lia].
Qed.

Lemma ConcurrencyCheck_admits (w : World) :
  concurrentOps w < maxConcurrentOps ->
  ConcurrencyCheck w = (None, set_concurrentOps (add64 (concurrentOps w) 1) w).
Proof.
  intros H. unfold ConcurrencyCheck.
  destruct (Z.leb_spec maxConcurrentOps (concurrentOps w)); [lia|reflexivity].
Qed.

Lemma ConcurrencyCheck_denies (w : World) :
  maxConcurrentOps <= concurrentOps w ->
  ConcurrencyCheck w = (Some ErrConcurrency, w).
Proof.
  intros H. unfold ConcurrencyCheck.
  destruct (Z.leb_spec maxConcurrentOps (concurrentOps w)); [reflexivity|lia].
Qed.

Section CodecFacts.
Context `{prim : Primitives} {ok : PrimitivesOk prim}.

Lemma VerifyHMAC_GenerateHMAC (key data : bytes) :
  VerifyHMAC key data (GenerateHMAC key data) = true.
Proof.
  unfold VerifyHMAC. rewrite ConstantTimeCompare_refl. reflexivity.
Qed.

Lemma SignECDSA_verifies (priv : ECDSAPrivateKey) (data rnd : bytes) :
  ecdsa_key_valid priv ->
  exists sig, SignECDSA priv data rnd = Ok sig /\
    VerifyECDSA (GenerateECDHKeys priv).2 data sig = true.
Proof.
  intros Hv.
  destruct (ecdsa_sign_verify rnd priv (sha512_Sum512 data) Hv) as (r & s & Hs & Hver).
  exists (json_Marshal (r, s)). unfold SignECDSA, VerifyECDSA. simpl.
  rewrite Hs, x509_parse_ecdsa, json_roundtrip. auto.
Qed.

Lemma SignRSA_verifies (priv : RSAPrivateKey) (data : bytes) :
  exists sig, SignRSA priv data = Ok sig /\
    VerifyRSA (GenerateRSAKeys priv).2 data sig = true.
Proof.
  destruct (rsa_sign_verify priv (sha256_Sum256 data)) as (sig & Hs & Hver).
  exists sig. unfold SignRSA, VerifyRSA. simpl.
  rewrite Hs, x509_parse_rsa. auto.
Qed.

Lemma aes_NewCipher_32 (key : bytes) :
  length key = 32%nat -> aes_NewCipher key = None.
Proof. intros H. unfold aes_NewCipher. rewrite H. reflexivity. Qed.

(** An admitted encryption yields a non-empty ciphertext of whole blocks
    that an admitted decryption under the same key and IV opens. *)
Lemma AES_admitted_roundtrip (key iv plaintext : bytes) :
  length key = 32%nat -> length iv = BlockSize ->
  exists c, AESEncrypt_admitted key iv plaintext = Ok c /\
    (BlockSize <= length c)%nat /\
    AESDecrypt_admitted key iv c = Ok plaintext.
Proof.
  intros Hk Hiv.
  destruct (PKCS7Pad_length plaintext) as [Hmod Hlen].
  exists (cbc_encrypt key iv (PKCS7Pad plaintext)).
  unfold AESEncrypt_admitted, AESDecrypt_admitted, CryptBlocks.
  rewrite (aes_NewCipher_32 key Hk), Hiv, Nat.eqb_refl.
  rewrite !cbc_encrypt_length, Hmod. simpl.
  split; [reflexivity|]. split; [exact Hlen|].
  rewrite (cbc_decrypt_encrypt key iv _ Hk Hiv Hmod).
  apply PKCS7_roundtrip.
Qed.

End CodecFacts.

(** ** Round trip *)

Section RoundTrip.
Context `{prim : Primitives} {ok : PrimitivesOk prim}.

Lemma AddNonce_fresh (nt : NonceTracker) (nonce : bytes) (ts ti : Time) :
  nt_nonces nt !! nonce = None ->
  exists nt', AddNonce nt nonce ts ti = (None, nt') /\
    nt_nonces nt' !! nonce = Some ti.
Proof.
  intros Hn. unfold AddNonce. rewrite Hn.
  eexists. split; [reflexivity|]. simpl. apply lookup_insert_eq.
Qed.

(** C1 (as amended): with a shared secret of at least 64 bytes, valid
    ECDSA and RSA key pairs, a 16-byte IV and a clock at or after the
    epoch, [CreateSecureMessage] run while the in-flight counter is below
    its cap returns an envelope.  Verifying that envelope with the same
    secret and the matching public keys, within the freshness window and
    with its nonce not yet in the tracker, returns exactly the plaintext
    when the in-flight counter is below its cap at the decryption, and
    the decryption error that wraps the concurrency error when the
    counter is at its cap. *)
Theorem roundtrip_when_admitted
    (plaintext sharedSecret : bytes) (ecdsaPriv : ECDSAPrivateKey)
    (rsaPriv : RSAPrivateKey) (iv nonce rnd : bytes) (t0 : Z) (w0 : World) :
  (64 <= length sharedSecret)%nat ->
  ecdsa_key_valid ecdsaPriv ->
  length iv = BlockSize ->
  0 <= t0 <= MaxInt64 ->
  concurrentOps w0 < maxConcurrentOps ->
  exists msg w0',
    CreateSecureMessage plaintext sharedSecret ecdsaPriv
      (GenerateECDHKeys ecdsaPriv).2 rsaPriv iv nonce rnd t0 w0 = (Ok msg, w0') /\
    forall (now : Z) (now_sweep now_insert : Time) (w1 : World),
      - MaxTimeDifference <= now - t0 <= MaxTimeDifference ->
      nt_nonces (globalNonceTracker w1) !! nonce = None ->
      let run := VerifyAndDecryptMessage msg sharedSecret (GenerateRSAKeys rsaPriv).2
                   now now_sweep now_insert w1 in
      (concurrentOps w1 < maxConcurrentOps -> run.1 = Ok plaintext) /\
      (maxConcurrentOps <= concurrentOps w1 ->
       run.1 = Err (ErrDecrypt ErrConcurrency)).
Proof.
  intros Hlen Hvalid Hiv Ht0 Hadm0.
  assert (Hk : length (take AESKeySize sharedSecret) = 32%nat).
  { rewrite length_take. unfold AESKeySize. lia. }
  destruct (AES_admitted_roundtrip (take AESKeySize sharedSecret) iv plaintext Hk Hiv)
    as (c & Henc & _ & Hdec).
  destruct (SignECDSA_verifies ecdsaPriv c rnd Hvalid) as (esig & Hes & Hev).
  destruct (SignRSA_verifies rsaPriv c) as (rsig & Hrs & Hrv).
  unfold GenerateECDHKeys, GenerateRSAKeys in *. cbn [snd] in *.
  unfold CreateSecureMessage.
  rewrite slice_to_ok by (unfold AESKeySize; lia).
  unfold AESEncrypt. rewrite (ConcurrencyCheck_admits w0 Hadm0), Henc.
  rewrite slice_from_ok by (unfold AESKeySize; lia).
  simpl obind. rewrite Hes. simpl obind. rewrite Hrs. simpl obind.
  eexists. eexists. split; [reflexivity|].
  intros now now_sweep now_insert w1 Hwin Hnonce.
  unfold VerifyAndDecryptMessage. cbn [Timestamp Nonce Cipher HMAC Signature PubKey RSASig IV].
  rewrite (timestamp_in_window now t0 Ht0 Hwin).
  destruct (AddNonce_fresh (globalNonceTracker (enter CkReplay (enter CkFreshness w1)))
              nonce now_sweep now_insert Hnonce) as (nt' & Hadd & _).
  rewrite Hadd.
  rewrite slice_from_ok by (unfold AESKeySize; lia).
  rewrite VerifyHMAC_GenerateHMAC. simpl negb. cbv iota.
  rewrite Hev. simpl negb. cbv iota.
  rewrite Hrv. simpl negb. cbv iota.
  rewrite slice_to_ok by (unfold AESKeySize; lia).
  unfold AESDecrypt. split; intros Hadm1.
  - rewrite ConcurrencyCheck_admits by exact Hadm1.
    rewrite Hdec. reflexivity.
  - rewrite ConcurrencyCheck_denies by exact Hadm1. reflexivity.
Qed.

End RoundTrip.

(** Witness of [roundtrip_when_admitted] on the toy suite. *)
Lemma roundtrip_when_admitted_witness :
  exists msg w0',
    CreateSecureMessage (prim := Toy.suite) Toy.hello Toy.secret64 Toy.alice
      (GenerateECDHKeys (prim := Toy.suite) Toy.alice).2 Toy.rsa_priv
      Toy.iv16 Toy.nonce16 [] 1700000000 initial_world = (Ok msg, w0') /\
    forall (now : Z) (now_sweep now_insert : Time) (w1 : World),
      - MaxTimeDifference <= now - 1700000000 <= MaxTimeDifference ->
      nt_nonces (globalNonceTracker w1) !! Toy.nonce16 = None ->
      let run := VerifyAndDecryptMessage (prim := Toy.suite) msg Toy.secret64
                   (GenerateRSAKeys (prim := Toy.suite) Toy.rsa_priv).2
                   now now_sweep now_insert w1 in
      (concurrentOps w1 < maxConcurrentOps -> run.1 = Ok Toy.hello) /\
      (maxConcurrentOps <= concurrentOps w1 ->
       run.1 = Err (ErrDecrypt ErrConcurrency)).
Proof.
  apply (roundtrip_when_admitted (ok := toy_suite_ok)).
  - simpl. lia.
  - reflexivity.
  - reflexivity.
  - unfold MaxInt64. lia.
  - simpl. unfold maxConcurrentOps. lia.
Defined.

(** C1 (as stated) fails: the secret has 64 bytes, the keys match, the
    envelope is fresh and verified for the first time, yet the plaintext
    does not come back once the in-flight counter stands at its cap,
    either at the decryption or already at the encryption. *)
Lemma roundtrip_fails_at_cap :
  length Toy.secret64 = 64%nat /\
  ecdsa_key_valid (H := Toy.suite) Toy.alice /\
  nt_nonces (globalNonceTracker Toy.saturated_world) !! Toy.nonce16 = None /\
  toy_verify (toy_create initial_world) 1700000000 initial_world = Ok Toy.hello /\
  toy_verify (toy_create initial_world) 1700000000 Toy.saturated_world
    = Err (ErrDecrypt ErrConcurrency) /\
  toy_verify (toy_create Toy.saturated_world) 1700000000 initial_world
    = Err (ErrDecrypt ErrEmptyData).
Proof.
  repeat split; vm_compute; reflexivity.
Qed.

(** ** The shared secret and its two segments *)

(** The two slices of a secret partition its bytes by position: the key
    of the cipher is the first 32 bytes, the MAC key all bytes after
    them, and together they are the secret. *)
Lemma secret_split (sharedSecret : bytes) :
  (64 <= length sharedSecret)%nat ->
  exists key macKey,
    slice_to sharedSecret AESKeySize = Ok key /\
    slice_from sharedSecret AESKeySize = Ok macKey /\
    key ++ macKey = sharedSecret /\
    length key = AESKeySize /\ (HMACKeySize <= length macKey)%nat.
Proof.
  intros H. exists (take AESKeySize sharedSecret), (drop AESKeySize sharedSecret).
  unfold AESKeySize, HMACKeySize in *.
  rewrite slice_to_ok, slice_from_ok by lia.
  rewrite take_drop, length_take, length_drop.
  repeat split; lia.
Qed.

Section SharedSecret.
Context `{prim : Primitives} {ok : PrimitivesOk prim}.

(** C2: whatever [ComputeSharedSecret] returns is one SHA-256 digest, 32
    bytes long: the cipher key takes all of it and the MAC-key segment
    [sharedSecret[AESKeySize:]] is empty. *)
Theorem ComputeSharedSecret_mac_key_empty
    (priv : ECDSAPrivateKey) (peerPubBytes secret : bytes) :
  ComputeSharedSecret priv peerPubBytes = Ok secret ->
  length secret = 32%nat /\
  slice_to secret AESKeySize = Ok secret /\
  slice_from secret AESKeySize = Ok [].
Proof.
  unfold ComputeSharedSecret. intros H.
  destruct (x509_Parse peerPubBytes) as [[pub|k]|]; try discriminate.
  injection H as <-.
  pose proof (sha256_length
    (big_Bytes (curve_ScalarMult pub (big_Bytes (ec_D priv))).1)) as Hl.
  split; [exact Hl|].
  unfold AESKeySize. rewrite slice_to_ok, slice_from_ok by lia.
  rewrite take_ge, drop_ge by lia. auto.
Qed.

End SharedSecret.

(** Witness of [ComputeSharedSecret_mac_key_empty] on the toy suite. *)
Lemma ComputeSharedSecret_mac_key_empty_witness :
  exists secret,
    ComputeSharedSecret (prim := Toy.suite) Toy.alice Toy.bob_pub = Ok secret /\
    length secret = 32%nat /\
    slice_to secret AESKeySize = Ok secret /\
    slice_from secret AESKeySize = Ok [].
Proof.
  eexists. split; [reflexivity|].
  apply (ComputeSharedSecret_mac_key_empty (ok := toy_suite_ok) Toy.alice Toy.bob_pub).
  reflexivity.
Defined.

(** ** Replay *)

Section Replay.
Context `{prim : Primitives}.

Lemma AddNonce_present (nt : NonceTracker) (nonce : bytes) (ts ti : Time) :
  is_Some (nt_nonces nt !! nonce) ->
  AddNonce nt nonce ts ti = (Some ErrReplay, nt).
Proof.
  intros [t Ht]. unfold AddNonce. rewrite Ht. reflexivity.
Qed.

Lemma AddNonce_records (nt : NonceTracker) (nonce : bytes) (ts ti : Time) :
  is_Some (nt_nonces (AddNonce nt nonce ts ti).2 !! nonce).
Proof.
  unfold AddNonce. destruct (nt_nonces nt !! nonce) as [t|] eqn:E; simpl.
  - rewrite E. eauto.
  - rewrite lookup_insert_eq. eauto.
Qed.

Lemma AESDecrypt_tracker (key iv c : bytes) (w : World) :
  globalNonceTracker (AESDecrypt key iv c w).2 = globalNonceTracker w.
Proof.
  unfold AESDecrypt, ConcurrencyCheck.
  destruct (maxConcurrentOps <=? concurrentOps w); reflexivity.
Qed.

(** The tracker after a verification: untouched when the timestamp is
    rejected, otherwise what [AddNonce] left. *)
Lemma Verify_tracker (msg : Message) (sharedSecret rsaPubKey : bytes)
    (now : Z) (ts ti : Time) (w : World) :
  globalNonceTracker
    (VerifyAndDecryptMessage msg sharedSecret rsaPubKey now ts ti w).2 =
  if timestamp_rejected now (Timestamp msg) then globalNonceTracker w
  else (AddNonce (globalNonceTracker w) (Nonce msg) ts ti).2.
Proof.
  unfold VerifyAndDecryptMessage.
  destruct (timestamp_rejected now (Timestamp msg)); [reflexivity|].
  cbn [globalNonceTracker enter].
  destruct (AddNonce (globalNonceTracker w) (Nonce msg) ts ti) as [[e|] nt];
    [reflexivity|].
  destruct (slice_from sharedSecret AESKeySize); try reflexivity.
  destruct (negb (VerifyHMAC a (Cipher msg) (HMAC msg))); [reflexivity|].
  destruct (negb (VerifyECDSA (PubKey msg) (Cipher msg) (Signature msg)));
    [reflexivity|].
  destruct (negb (VerifyRSA rsaPubKey (Cipher msg) (RSASig msg))); [reflexivity|].
  destruct (slice_to sharedSecret AESKeySize); try reflexivity.
  match goal with
  | |- context [AESDecrypt ?k ?i ?c ?w0] =>
      pose proof (AESDecrypt_tracker k i c w0) as Ht;
      destruct (AESDecrypt k i c w0) as [[p|e| |] w1]
  end; exact Ht.
Qed.

Lemma Verify_replay (msg : Message) (sharedSecret rsaPubKey : bytes)
    (now : Z) (ts ti : Time) (w : World) :
  timestamp_rejected now (Timestamp msg) = false ->
  is_Some (nt_nonces (globalNonceTracker w) !! Nonce msg) ->
  VerifyAndDecryptMessage msg sharedSecret rsaPubKey now ts ti w =
    (Err ErrReplay, enter CkReplay (enter CkFreshness w)).
Proof.
  intros Hf Hn. unfold VerifyAndDecryptMessage. rewrite Hf.
  cbn [globalNonceTracker enter].
  rewrite (AddNonce_present _ _ ts ti Hn).
  destruct w; reflexivity.
Qed.

Lemma Verify_stale (msg : Message) (sharedSecret rsaPubKey : bytes)
    (now : Z) (ts ti : Time) (w : World) :
  timestamp_rejected now (Timestamp msg) = true ->
  VerifyAndDecryptMessage msg sharedSecret rsaPubKey now ts ti w =
    (Err ErrTimestamp, enter CkFreshness w).
Proof.
  intros Hf. unfold VerifyAndDecryptMessage. rewrite Hf. reflexivity.
Qed.

(** C3: recording a nonce that the tracker holds returns the replay
    error and leaves the tracker as it was.  Consequently, of two
    verifications of one envelope in sequence at most one returns a
    plaintext, and when both get past the timestamp test the second one
    is rejected with the replay error. *)
Theorem replay_rejected :
  (forall (nt : NonceTracker) (nonce : bytes) (ts ti : Time),
      is_Some (nt_nonces nt !! nonce) ->
      AddNonce nt nonce ts ti = (Some ErrReplay, nt)) /\
  (forall (msg : Message) (sharedSecret rsaPubKey : bytes)
      (now1 : Z) (ts1 ti1 : Time) (now2 : Z) (ts2 ti2 : Time) (w : World),
      let first := VerifyAndDecryptMessage msg sharedSecret rsaPubKey now1 ts1 ti1 w in
      let second :=
        VerifyAndDecryptMessage msg sharedSecret rsaPubKey now2 ts2 ti2 first.2 in
      (forall p, first.1 = Ok p -> forall q, second.1 <> Ok q) /\
      (timestamp_rejected now1 (Timestamp msg) = false ->
       timestamp_rejected now2 (Timestamp msg) = false ->
       second.1 = Err ErrReplay /\
       globalNonceTracker second.2 = globalNonceTracker first.2)).
Proof.
  split; [exact AddNonce_present|].
  intros msg sharedSecret rsaPubKey now1 ts1 ti1 now2 ts2 ti2 w first second.
  assert (Hrec : timestamp_rejected now1 (Timestamp msg) = false ->
                 is_Some (nt_nonces (globalNonceTracker first.2) !! Nonce msg)).
  { intros Hf. subst first. rewrite Verify_tracker, Hf. apply AddNonce_records. }
  split.
  - intros p Hp q Hq.
    destruct (timestamp_rejected now1 (Timestamp msg)) eqn:Hf1.
    + subst first. rewrite Verify_stale in Hp by exact Hf1. discriminate.
    + destruct (timestamp_rejected now2 (Timestamp msg)) eqn:Hf2.
      * subst second. rewrite Verify_stale in Hq by exact Hf2. discriminate.
      * subst second. rewrite Verify_replay in Hq by auto. discriminate.
  - intros Hf1 Hf2. subst second.
    rewrite Verify_replay by auto. split; reflexivity.
Qed.

End Replay.

(** Witness of [replay_rejected]: the toy envelope is accepted, and
    verified again one second later it is rejected as a replay. *)
Lemma replay_rejected_witness :
  exists msg,
    toy_create initial_world = Ok msg /\
    let first := VerifyAndDecryptMessage (prim := Toy.suite) msg Toy.secret64
                   Toy.rsa_pub 1700000000 0 0 initial_world in
    let second := VerifyAndDecryptMessage (prim := Toy.suite) msg Toy.secret64
                    Toy.rsa_pub 1700000001 0 0 first.2 in
    first.1 = Ok Toy.hello /\
    second.1 = Err ErrReplay /\
    globalNonceTracker second.2 = globalNonceTracker first.2.
Proof.
  eexists. split; [reflexivity|].
  intros first second. split; [reflexivity|].
  apply (proj2 (replay_rejected (prim := Toy.suite))); reflexivity.
Defined.

(** ** Order of the receive path *)

Section Order.
Context `{prim : Primitives}.

Lemma AESDecrypt_result_counter (key iv c : bytes) (w w' : World) :
  concurrentOps w' = concurrentOps w ->
  (AESDecrypt key iv c w').1 = (AESDecrypt key iv c w).1.
Proof.
  intros H. unfold AESDecrypt, ConcurrencyCheck. rewrite H.
  destruct (maxConcurrentOps <=? concurrentOps w); reflexivity.
Qed.




End Order.


(** ** The in-flight counter *)

Lemma add64_small (a b : Z) : in_int64 (a + b) -> add64 a b = a + b.
Proof. apply wrap64_small. Qed.

(** Run without interference, the guard keeps the counter at or below
    the cap. *)
Lemma ConcurrencyCheck_keeps_cap (w : World) :
  in_int64 (concurrentOps w) ->
  concurrentOps w <= maxConcurrentOps ->
  concurrentOps (ConcurrencyCheck w).2 <= maxConcurrentOps.
Proof.
  intros Hr Hc. unfold ConcurrencyCheck.
  destruct (Z.leb_spec maxConcurrentOps (concurrentOps w)); simpl; [lia|].
  rewrite add64_small; [lia|].
  unfold in_int64, MinInt64, MaxInt64, maxConcurrentOps in *. lia.
Qed.

Section Release.
Context `{prim : Primitives}.

(** Every admitted call gives its slot back, whatever its outcome: the
    counter after [AESEncrypt] and after [AESDecrypt] is the counter
    before. *)
Lemma AESEncrypt_releases (key iv p : bytes) (w : World) :
  in_int64 (concurrentOps w) ->
  concurrentOps (AESEncrypt key iv p w).2 = concurrentOps w.
Proof.
  intros Hr. unfold AESEncrypt, ConcurrencyCheck, ConcurrencyRelease.
  destruct (Z.leb_spec maxConcurrentOps (concurrentOps w)); simpl; [reflexivity|].
  unfold in_int64, MinInt64, MaxInt64, maxConcurrentOps in *.
  rewrite (add64_small (concurrentOps w) 1) by (unfold in_int64, MinInt64, MaxInt64; lia).
  rewrite add64_small by (unfold in_int64, MinInt64, MaxInt64; lia). lia.
Qed.

Lemma AESDecrypt_releases (key iv c : bytes) (w : World) :
  in_int64 (concurrentOps w) ->
  concurrentOps (AESDecrypt key iv c w).2 = concurrentOps w.
Proof.
  intros Hr. unfold AESDecrypt, ConcurrencyCheck, ConcurrencyRelease.
  destruct (Z.leb_spec maxConcurrentOps (concurrentOps w)); simpl; [reflexivity|].
  unfold in_int64, MinInt64, MaxInt64, maxConcurrentOps in *.
  rewrite (add64_small (concurrentOps w) 1) by (unfold in_int64, MinInt64, MaxInt64; lia).
  rewrite add64_small by (unfold in_int64, MinInt64, MaxInt64; lia). lia.
Qed.

End Release.

Lemma Conc_run_sound (sched : list nat) (s s' : Conc.state) :
  Conc.run sched s = Some s' -> rtc Conc.step_rel s s'.
Proof.
  revert s. induction sched as [|i rest IH]; intros s H; simpl in H.
  - injection H as <-. apply rtc_refl.
  - destruct (Conc.step i s) as [s1|] eqn:E; [|discriminate].
    eapply rtc_l; [exists i; exact E|]. apply IH, H.
Qed.

(** C7: 101 goroutines enter a guarded operation while nothing is in
    flight.  When each of them loads the counter before any of them
    adds to it, all 101 pass the test and the counter reaches 101, above
    the cap of 100, with 101 operations in flight. *)
Theorem counter_exceeds_cap_under_interleaving :
  exists s,
    Conc.run (Conc.all_load_then_all_add 101) (Conc.init 101) = Some s /\
    rtc Conc.step_rel (Conc.init 101) s /\
    Conc.counter s = 101 /\
    Conc.in_flight s = 101 /\
    maxConcurrentOps < Conc.counter s.
Proof.
  assert (H : exists s,
    Conc.run (Conc.all_load_then_all_add 101) (Conc.init 101) = Some s /\
    Conc.counter s = 101 /\ Conc.in_flight s = 101).
  { vm_compute. eexists. split; [reflexivity|]. split; reflexivity. }
  destruct H as (s & Hrun & Hc & Hf).
  exists s. split; [exact Hrun|]. split; [exact (Conc_run_sound _ _ _ Hrun)|].
  split; [exact Hc|]. split; [exact Hf|].
  rewrite Hc. unfold maxConcurrentOps. lia.
Qed.

(** The part of the guard that does hold under every interleaving: the
    counter equals the number of goroutines that are admitted and have
    not yet released, so no acquisition is released twice or never. *)
Lemma admitted_insert_length (l : list Conc.pc) (i : nat) (x y : Conc.pc) :
  l !! i = Some x ->
  (length (filter (fun p => Conc.is_admitted p = true) (<[i := y]> l))
     + (if Conc.is_admitted x then 1 else 0) =
   length (filter (fun p => Conc.is_admitted p = true) l)
     + (if Conc.is_admitted y then 1 else 0))%nat.
Proof.
  revert i. induction l as [|a l IH]; intros i Hl; [discriminate|].
  destruct i as [|i]; simpl in *.
  - injection Hl as ->. rewrite !filter_cons.
    destruct (decide (Conc.is_admitted y = true)) as [Hy|Hy],
             (decide (Conc.is_admitted x = true)) as [Hx|Hx];
      try rewrite Hy; try rewrite Hx;
      try (apply not_true_is_false in Hy; rewrite Hy);
      try (apply not_true_is_false in Hx; rewrite Hx); simpl; lia.
  - specialize (IH i Hl). rewrite !filter_cons.
    destruct (decide (Conc.is_admitted a = true)); simpl; lia.
Qed.

Lemma Conc_step_invariant (s s' : Conc.state) :
  Z.of_nat (length (Conc.threads s)) <= MaxInt64 ->
  Conc.counter s = Conc.in_flight s ->
  Conc.step_rel s s' ->
  length (Conc.threads s') = length (Conc.threads s) /\
  Conc.counter s' = Conc.in_flight s'.
Proof.
  intros Hlen Hinv [i Hstep]. unfold Conc.step in Hstep.
  destruct (Conc.threads s !! i) as [p|] eqn:Hp; [|discriminate].
  pose proof (length_filter (fun p => Conc.is_admitted p = true) (Conc.threads s)) as Hle.
  assert (Hpos : ((if Conc.is_admitted p then 1 else 0)
                 <= length (filter (fun p => Conc.is_admitted p = true) (Conc.threads s)))%nat).
  { destruct (Conc.is_admitted p) eqn:Hadm; [|lia].
    assert (Hin : p ∈ filter (fun p => Conc.is_admitted p = true) (Conc.threads s)).
    { apply list_elem_of_filter. split; [exact Hadm|].
      apply list_elem_of_lookup. eauto. }
    destruct (filter (fun p => Conc.is_admitted p = true) (Conc.threads s));
      [inversion Hin|simpl; lia]. }
  unfold Conc.in_flight in *.
  unfold MaxInt64 in Hlen.
  destruct p as [|current| |b]; simpl in Hstep.
  - injection Hstep as <-. simpl. rewrite length_insert. split; [reflexivity|].
    pose proof (admitted_insert_length _ i _ (Conc.Loaded (Conc.counter s)) Hp).
    simpl in *. lia.
  - destruct (maxConcurrentOps <=? current); injection Hstep as <-; simpl;
      rewrite length_insert; (split; [reflexivity|]).
    + pose proof (admitted_insert_length _ i _ (Conc.Finished false) Hp).
      simpl in *. lia.
    + pose proof (admitted_insert_length _ i _ Conc.Holding Hp).
      pose proof (length_filter (fun p => Conc.is_admitted p = true)
                    (<[i := Conc.Holding]> (Conc.threads s))) as Hle'.
      rewrite length_insert in Hle'.
      simpl in *. rewrite add64_small; [lia|].
      unfold in_int64, MinInt64, MaxInt64. lia.
  - injection Hstep as <-. simpl. rewrite length_insert. split; [reflexivity|].
    pose proof (admitted_insert_length _ i _ (Conc.Finished true) Hp).
    simpl in *. rewrite add64_small; [lia|].
    unfold in_int64, MinInt64, MaxInt64. lia.
  - discriminate.
Qed.

Lemma Conc_counter_is_in_flight (n : nat) (s : Conc.state) :
  Z.of_nat n <= MaxInt64 ->
  rtc Conc.step_rel (Conc.init n) s ->
  Conc.counter s = Conc.in_flight s /\ 0 <= Conc.counter s <= Z.of_nat n.
Proof.
  intros Hn Hreach.
  assert (H : length (Conc.threads s) = n /\ Conc.counter s = Conc.in_flight s).
  { apply rtc_nsteps in Hreach as [k Hk].
    revert s Hk. induction k as [|k IH]; intros s Hk.
    - inversion Hk; subst. simpl. rewrite repeat_length. split; [reflexivity|].
      unfold Conc.in_flight. simpl.
      replace (filter (fun p => Conc.is_admitted p = true) (repeat Conc.Start n))
        with (@nil Conc.pc); [reflexivity|].
      clear. induction n as [|n IH]; [reflexivity|].
      simpl. rewrite filter_cons. simpl. exact IH.
    - apply nsteps_inv_r in Hk as (s0 & Hk & Hstep).
      destruct (IH s0 Hk) as [Hl Hi].
      destruct (Conc_step_invariant s0 s) as [Hl' Hi']; auto; [lia|].
      split; [lia|exact Hi']. }
  destruct H as [Hl Hi]. split; [exact Hi|].
  rewrite Hi. unfold Conc.in_flight.
  pose proof (length_filter (fun p => Conc.is_admitted p = true) (Conc.threads s)).
  lia.
Qed.

(** ** Freshness *)

(** With a clock after the epoch, the boundary of the window is as
    follows: 31 seconds old is rejected, 30 and 29 seconds old are
    accepted, 30 seconds ahead is accepted and 31 seconds ahead is
    rejected. *)
Lemma freshness_boundary (now : Z) :
  0 <= now <= MaxInt64 - 31 ->
  timestamp_rejected now (now - 31) = true /\
  timestamp_rejected now (now - 30) = false /\
  timestamp_rejected now (now - 29) = false /\
  timestamp_rejected now (now + 30) = false /\
  timestamp_rejected now (now + 31) = true.
Proof.
  intros Hn. unfold MaxInt64 in Hn.
  assert (E : forall d, -31 <= d <= 31 ->
    timestamp_rejected now (now + d) = true <-> (30 < - d \/ 30 < d)).
  { intros d Hd. rewrite timestamp_rejected_exact.
    - unfold MaxTimeDifference. lia.
    - unfold in_int64, MinInt64, MaxInt64. lia.
    - unfold in_int64, MinInt64, MaxInt64, MaxTimeDifference. lia. }
  assert (F : forall d, -31 <= d <= 31 -> ~ (30 < - d \/ 30 < d) ->
    timestamp_rejected now (now + d) = false).
  { intros d Hd Hno. destruct (timestamp_rejected now (now + d)) eqn:Er; [|reflexivity].
    apply E in Er; [contradiction|exact Hd]. }
  replace (now - 31) with (now + -31) by lia.
  replace (now - 30) with (now + -30) by lia.
  replace (now - 29) with (now + -29) by lia.
  repeat split; try (apply E; lia); apply F; lia.
Qed.

(** A timestamp more than the window ahead of a clock after the epoch is
    always rejected. *)
Lemma future_timestamp_rejected (now ts : Z) :
  0 <= now -> in_int64 ts -> MaxTimeDifference < ts - now ->
  timestamp_rejected now ts = true.
Proof.
  intros Hn Hts Hf. unfold timestamp_rejected.
  apply orb_true_iff. right. apply Z.ltb_lt.
  unfold sub64. rewrite wrap64_small; [lia|].
  unfold in_int64, MinInt64, MaxInt64, MaxTimeDifference in *. lia.
Qed.

(** C5: at [now = 1700000000], an envelope stamped
    [-9223372036854775708] is more than 30 seconds old, yet the timestamp
    test lets it through, because [now - msg.Timestamp] overflows [int64]
    to a negative value; the toy envelope re-stamped so is accepted and
    decrypted. *)
Theorem stale_timestamp_accepted_by_overflow :
  let now := 1700000000 in
  let ts := -9223372036854775708 in
  in_int64 now /\ in_int64 ts /\
  MaxTimeDifference < now - ts /\
  sub64 now ts < 0 /\
  timestamp_rejected now ts = false /\
  toy_verify (omap (with_Timestamp ts) (toy_create initial_world)) now initial_world
    = Ok Toy.hello.
Proof.
  vm_compute. repeat split; congruence.
Qed.

(** ** When the nonce is recorded *)

Section NonceRecording.
Context `{prim : Primitives}.

(** C6 (as amended): a nonce record is created as soon as an envelope
    gets past the timestamp test with a nonce that the tracker does not
    hold, before the MAC, the signatures and the decryption are looked
    at and whatever they then give; an envelope rejected by the timestamp
    test, or as a replay, leaves the tracker unchanged. *)
Theorem nonce_recorded_before_authentication
    (msg : Message) (sharedSecret rsaPubKey : bytes)
    (now : Z) (ts ti : Time) (w : World) :
  let after := (VerifyAndDecryptMessage msg sharedSecret rsaPubKey now ts ti w).2 in
  (timestamp_rejected now (Timestamp msg) = true ->
   globalNonceTracker after = globalNonceTracker w) /\
  (timestamp_rejected now (Timestamp msg) = false ->
   is_Some (nt_nonces (globalNonceTracker w) !! Nonce msg) ->
   globalNonceTracker after = globalNonceTracker w) /\
  (timestamp_rejected now (Timestamp msg) = false ->
   nt_nonces (globalNonceTracker w) !! Nonce msg = None ->
   nt_nonces (globalNonceTracker after) !! Nonce msg = Some ti).
Proof.
  intros after. subst after. rewrite Verify_tracker.
  repeat split.
  - intros ->. reflexivity.
  - intros -> Hn. rewrite (AddNonce_present _ _ ts ti Hn). reflexivity.
  - intros -> Hn. unfold AddNonce. rewrite Hn. simpl. apply lookup_insert_eq.
Qed.

End NonceRecording.

(** Witness of [nonce_recorded_before_authentication]: the toy envelope
    with its MAC replaced. *)
Lemma nonce_recorded_before_authentication_witness :
  exists msg,
    omap (with_HMAC [0]) (toy_create initial_world) = Ok msg /\
    nt_nonces (globalNonceTracker
      (VerifyAndDecryptMessage (prim := Toy.suite) msg Toy.secret64 Toy.rsa_pub
         1700000000 5 6 initial_world).2) !! Nonce msg = Some 6.
Proof.
  eexists. split; [reflexivity|].
  apply (nonce_recorded_before_authentication (prim := Toy.suite)); reflexivity.
Defined.

(** C6 (as stated) fails: the toy envelope with a wrong MAC passes the
    timestamp test and is rejected by the MAC test, and its nonce, absent
    before, is in the tracker afterwards; the genuine envelope that
    carries this nonce is then turned away as a replay. *)
Lemma rejected_envelope_consumes_nonce :
  let genuine := toy_create initial_world in
  let forged := omap (with_HMAC [0]) genuine in
  let run := toy_verify_world forged 1700000000 initial_world in
  nt_nonces (globalNonceTracker initial_world) !! Toy.nonce16 = None /\
  run.1 = Err ErrHMAC /\
  nt_nonces (globalNonceTracker run.2) !! Toy.nonce16 = Some 1700000000000000000 /\
  globalNonceTracker run.2 <> globalNonceTracker initial_world /\
  (toy_verify_world genuine 1700000000 run.2).1 = Err ErrReplay.
Proof.
  intros genuine forged run.
  assert (Hl : nt_nonces (globalNonceTracker run.2) !! Toy.nonce16
               = Some 1700000000000000000) by (vm_compute; reflexivity).
  split; [vm_compute; reflexivity|].
  split; [vm_compute; reflexivity|].
  split; [exact Hl|].
  split; [|vm_compute; reflexivity].
  intros Heq. rewrite Heq in Hl. vm_compute in Hl. discriminate Hl.
Qed.

(** ** Rate limiting *)

Lemma Time_Sub_lt (t u : Time) (d : Duration) :
  MinInt64 < d <= MaxInt64 ->
  (Time_Sub t u <? d) = (t - u <? d).
Proof.
  intros Hd. unfold Time_Sub.
  destruct (Z.ltb_spec (t - u) MinInt64).
  - destruct (Z.ltb_spec MinInt64 d), (Z.ltb_spec (t - u) d); try reflexivity; lia.
  - destruct (Z.ltb_spec MaxInt64 (t - u)); [|reflexivity].
    destruct (Z.ltb_spec MaxInt64 d), (Z.ltb_spec (t - u) d); try reflexivity; lia.
Qed.

(** C8: [RateLimitCheck] rejects exactly when the client has a recorded
    last operation less than 10 ms before the current time, and then
    leaves the map as it was; otherwise it accepts, the client's entry
    becomes the current time, and the map keeps exactly the entries,
    this one included, that are not older than one minute. *)
Theorem RateLimitCheck_spec (clientID : string) (now : Time) (m : gmap string Time) :
  let r := (RateLimitCheck clientID now m).1 in
  let m' := (RateLimitCheck clientID now m).2 in
  (r = Some ErrRateLimit <->
     exists lastOp, m !! clientID = Some lastOp /\ now - lastOp < 10 * Millisecond) /\
  (r = Some ErrRateLimit -> m' = m) /\
  (r <> Some ErrRateLimit ->
     r = None /\
     m' !! clientID = Some now /\
     forall id t, m' !! id = Some t <->
       (<[clientID := now]> m !! id = Some t /\ now - 60 * Second <= t)).
Proof.
  intros r m'. subst r m'. unfold RateLimitCheck.
  assert (Hd : MinInt64 < minOpInterval <= MaxInt64) by (vm_compute; split; congruence).
  destruct (m !! clientID) as [lastOp|] eqn:Hl.
  - rewrite (Time_Sub_lt now lastOp minOpInterval Hd).
    destruct (Z.ltb_spec (now - lastOp) minOpInterval) as [Hlt|Hge]; simpl.
    + split; [|split].
      * split; [|reflexivity]. intros _. exists lastOp. split; [reflexivity|exact Hlt].
      * reflexivity.
      * intros Hc. contradiction Hc. reflexivity.
    + split; [|split].
      * split; [discriminate|]. intros (l & Hl' & Hlt). injection Hl' as <-.
        unfold minOpInterval in Hge. lia.
      * discriminate.
      * intros _. split; [reflexivity|]. split.
        -- apply map_lookup_filter_Some. split; [apply lookup_insert_eq|].
           simpl. unfold Time_Before, Time_Add, Minute, Second, Millisecond.
           apply Z.ltb_ge. lia.
        -- intros id t. rewrite map_lookup_filter_Some. simpl.
           unfold Time_Before, Time_Add, Minute.
           rewrite Z.ltb_ge. split; intros [H1 H2]; (split; [exact H1|lia]).
  - simpl. split; [|split].
    + split; [discriminate|]. intros (l & Hl' & _). discriminate.
    + discriminate.
    + intros _. split; [reflexivity|]. split.
      * apply map_lookup_filter_Some. split; [apply lookup_insert_eq|].
        simpl. unfold Time_Before, Time_Add, Minute, Second, Millisecond.
        apply Z.ltb_ge. lia.
      * intros id t. rewrite map_lookup_filter_Some. simpl.
        unfold Time_Before, Time_Add, Minute.
        rewrite Z.ltb_ge. split; intros [H1 H2]; (split; [exact H1|lia]).
Qed.

(** Witness of [RateLimitCheck_spec]: a client seen 5 ms ago is turned
    away and the map is left alone; seen 10 ms ago it is accepted. *)
Lemma RateLimitCheck_spec_witness :
  let m : gmap string Time := {[ "alice"%string := 1000000000 ]} in
  RateLimitCheck "alice" 1005000000 m = (Some ErrRateLimit, m) /\
  (RateLimitCheck "alice" 1010000000 m).1 = None /\
  (RateLimitCheck "alice" 1010000000 m).2 !! "alice"%string = Some 1010000000.
Proof.
  intros m.
  pose proof (RateLimitCheck_spec "alice" 1005000000 m) as (H1 & H2 & _).
  pose proof (RateLimitCheck_spec "alice" 1010000000 m) as (_ & _ & H3).
  assert (Hr : (RateLimitCheck "alice" 1005000000 m).1 = Some ErrRateLimit).
  { apply H1. exists 1000000000. split; [reflexivity|]. unfold Millisecond. lia. }
  split.
  - rewrite (surjective_pairing (RateLimitCheck "alice" 1005000000 m)).
    rewrite Hr, (H2 Hr). reflexivity.
  - assert (Hn : (RateLimitCheck "alice" 1010000000 m).1 <> Some ErrRateLimit)
      by (vm_compute; discriminate).
    destruct (H3 Hn) as (Ha & Hb & _). split; [exact Ha|exact Hb].
Defined.

(** The map is a faithful record of the history: along any history
    with a clock that never goes back, the next call is rejected exactly
    when fewer than 10 ms have passed since the last accepted call of the
    same client. *)
Lemma rl_step_inv (st : gmap string Time * gmap string Time) (T : Time)
    (call : string * Time) :
  rl_inv st T -> T <= call.2 -> rl_inv (rl_step st call) call.2.
Proof.
  destruct st as [m la], call as [c now]. intros [I1 I2] HT. simpl in *.
  pose proof (RateLimitCheck_spec c now m) as (Hrej & Hsame & Hacc).
  unfold rl_step. simpl.
  destruct (RateLimitCheck c now m) as [[e|] m'] eqn:E; simpl in *.
  - assert (He : Some e = Some ErrRateLimit).
    { unfold RateLimitCheck in E.
      match type of E with
      | context [if ?b then _ else _] => destruct b
      end; [injection E as <- _; reflexivity|discriminate E]. }
    rewrite (Hsame He). split; [exact I1|].
    intros c' t Hla Hm. specialize (I2 c' t Hla Hm). lia.
  - destruct (Hacc ltac:(discriminate)) as (_ & Hc & Hall).
    split; simpl.
    + intros c' t Hm'. apply Hall in Hm' as [Hins _].
      destruct (decide (c = c')) as [<-|Hne].
      * rewrite lookup_insert_eq in Hins. rewrite lookup_insert_eq. exact Hins.
      * rewrite lookup_insert_ne in Hins by exact Hne.
        rewrite lookup_insert_ne by exact Hne. apply I1, Hins.
    + intros c' t Hla Hm'.
      destruct (decide (c = c')) as [<-|Hne]; [congruence|].
      rewrite lookup_insert_ne in Hla by exact Hne.
      destruct (m !! c') as [t'|] eqn:Hm.
      * pose proof (I1 c' t' Hm) as Hla'. assert (t' = t) by congruence. subst t'.
        destruct (Z_lt_le_dec t (now - 60 * Second)) as [Hlt|Hge].
        -- unfold Minute. lia.
        -- assert (Hk : m' !! c' = Some t).
           { apply Hall. split; [|exact Hge].
             rewrite lookup_insert_ne by exact Hne. exact Hm. }
           congruence.
      * specialize (I2 c' t Hla Hm). lia.
Qed.

Lemma rl_run_inv (calls : list (string * Time)) (st : gmap string Time * gmap string Time)
    (T : Time) :
  rl_inv st T -> clock_monotone T calls ->
  rl_inv (fold_left rl_step calls st) (last_reading T calls).
Proof.
  revert st T. induction calls as [|call rest IH]; intros st T Hinv Hmono.
  - exact Hinv.
  - destruct Hmono as [HT Hrest]. simpl.
    apply IH; [|exact Hrest]. apply rl_step_inv with (T := T); assumption.
Qed.

(** X19: along any history of calls whose clock never goes back, the next
    call is rejected exactly when fewer than 10 ms have passed since the
    last accepted call of the same client. *)
Lemma RateLimitCheck_history (calls : list (string * Time)) (T : Time)
    (clientID : string) (now : Time) :
  clock_monotone T calls -> last_reading T calls <= now ->
  (RateLimitCheck clientID now (rl_run calls).1).1 = Some ErrRateLimit <->
  exists t, (rl_run calls).2 !! clientID = Some t /\ now - t < 10 * Millisecond.
Proof.
  intros Hmono Hnow.
  assert (Hinv : rl_inv (rl_run calls) (last_reading T calls)).
  { apply rl_run_inv; [|exact Hmono]. split; intros c t H; simpl in H;
      rewrite lookup_empty in H; discriminate. }
  destruct Hinv as [I1 I2].
  pose proof (RateLimitCheck_spec clientID now (rl_run calls).1) as (Hrej & _).
  simpl in Hrej. rewrite Hrej. split.
  - intros (t & Hm & Hlt). exists t. split; [apply I1, Hm|exact Hlt].
  - intros (t & Hla & Hlt).
    destruct ((rl_run calls).1 !! clientID) as [t'|] eqn:Hm.
    + exists t'. split; [reflexivity|].
      pose proof (I1 _ _ Hm). assert (t' = t) by congruence. subst t'. exact Hlt.
    + specialize (I2 _ _ Hla Hm). unfold Minute, Second, Millisecond in *. lia.
Qed.

(** ** Key agreement *)

Lemma big_Exp_nonneg (x y m : Z) :
  0 <= y -> 0 < m -> big_Exp x y m = Some (x ^ y mod m).
Proof.
  intros Hy Hm. unfold big_Exp.
  destruct (Z.eqb_spec m 0); [lia|].
  destruct (Z.ltb_spec y 0); [lia|].
  rewrite Z.abs_eq by lia. reflexivity.
Qed.

Section KeyAgreement.
Context `{prim : Primitives} {ok : PrimitivesOk prim}.

Lemma GenerateDHKeyPair_inv (params : DHParams) (draw : Z) (kp : DHKeyPair) :
  GenerateDHKeyPair params draw = Ok kp ->
  1 < dh_P params /\ 1 <= dh_Private kp < dh_P params /\
  dh_Public kp = dh_G params ^ dh_Private kp mod dh_P params.
Proof.
  unfold GenerateDHKeyPair, rand_Int. intros H.
  destruct (Z.leb_spec (dh_P params - 1) 0) as [Hle|Hgt]; [discriminate|].
  simpl in H.
  pose proof (Z.mod_pos_bound draw (dh_P params - 1) Hgt) as Hb.
  rewrite big_Exp_nonneg in H by lia.
  injection H as <-. simpl. repeat split; lia.
Qed.

(** C9: two valid ECDSA key pairs derive the same secret from each
    other's encoded public key, and two Diffie-Hellman key pairs
    generated over the same group parameters derive the same secret from
    each other's public value. *)
Theorem key_agreement_symmetric
    (a b : ECDSAPrivateKey) (params : DHParams) (drawA drawB : Z)
    (kpA kpB : DHKeyPair) :
  ecdsa_key_valid a -> ecdsa_key_valid b ->
  GenerateDHKeyPair params drawA = Ok kpA ->
  GenerateDHKeyPair params drawB = Ok kpB ->
  (exists secret,
      ComputeSharedSecret a (GenerateECDHKeys b).2 = Ok secret /\
      ComputeSharedSecret b (GenerateECDHKeys a).2 = Ok secret) /\
  (exists secret,
      ComputeDHSharedSecret (dh_Private kpA) (dh_Public kpB) params = Some secret /\
      ComputeDHSharedSecret (dh_Private kpB) (dh_Public kpA) params = Some secret).
Proof.
  intros Ha Hb HkA HkB. split.
  - unfold ComputeSharedSecret, GenerateECDHKeys. cbn [snd].
    rewrite !x509_parse_ecdsa. eexists. split; [reflexivity|].
    unfold ecdsa_key_valid in Ha, Hb. rewrite Ha, Hb.
    rewrite scalar_mult_comm. reflexivity.
  - apply GenerateDHKeyPair_inv in HkA as (HP & HpA & HqA).
    apply GenerateDHKeyPair_inv in HkB as (_ & HpB & HqB).
    unfold ComputeDHSharedSecret.
    rewrite !big_Exp_nonneg by lia.
    eexists. split; [reflexivity|].
    rewrite HqA, HqB, !Z.mod_pow_l, <- !Z.pow_mul_r by lia.
    rewrite (Z.mul_comm (dh_Private kpA)). reflexivity.
Qed.

End KeyAgreement.

(** Witness of [key_agreement_symmetric]: the toy curve, and the group
    of integers modulo 23 with generator 5. *)
Lemma key_agreement_symmetric_witness :
  let params := {| dh_P := 23; dh_G := 5 |} in
  let kpA := {| dh_Private := 7; dh_Public := 17; dh_Params := params |} in
  let kpB := {| dh_Private := 16; dh_Public := 3; dh_Params := params |} in
  (exists secret,
      ComputeSharedSecret (prim := Toy.suite) Toy.alice
        (GenerateECDHKeys (prim := Toy.suite) Toy.bob).2 = Ok secret /\
      ComputeSharedSecret (prim := Toy.suite) Toy.bob
        (GenerateECDHKeys (prim := Toy.suite) Toy.alice).2 = Ok secret) /\
  (exists secret,
      ComputeDHSharedSecret (prim := Toy.suite) (dh_Private kpA) (dh_Public kpB) params
        = Some secret /\
      ComputeDHSharedSecret (prim := Toy.suite) (dh_Private kpB) (dh_Public kpA) params
        = Some secret).
Proof.
  intros params kpA kpB.
  apply (key_agreement_symmetric (ok := toy_suite_ok) Toy.alice Toy.bob params 6 15);
    reflexivity.
Defined.

(** ** Denied encryption *)

Section Denied.
Context `{prim : Primitives}.

(** C10: with the in-flight counter at or above the cap, [AESEncrypt]
    returns an empty ciphertext as a normal result and no error, with
    the state untouched, while [AESDecrypt] in the same state returns the
    concurrency error. *)
Theorem AESEncrypt_denied_returns_nil (key iv plaintext : bytes) (w : World) :
  maxConcurrentOps <= concurrentOps w ->
  AESEncrypt key iv plaintext w = (Ok [], w) /\
  AESDecrypt key iv plaintext w = (Err ErrConcurrency, w).
Proof.
  intros H. unfold AESEncrypt, AESDecrypt.
  rewrite (ConcurrencyCheck_denies w H). split; reflexivity.
Qed.

End Denied.

(** Witness of [AESEncrypt_denied_returns_nil], with the envelope built
    around the empty ciphertext. *)
Lemma AESEncrypt_denied_returns_nil_witness :
  (AESEncrypt (prim := Toy.suite) (take 32 Toy.secret64) Toy.iv16 Toy.hello
     Toy.saturated_world = (Ok [], Toy.saturated_world) /\
   AESDecrypt (prim := Toy.suite) (take 32 Toy.secret64) Toy.iv16 Toy.hello
     Toy.saturated_world = (Err ErrConcurrency, Toy.saturated_world)) /\
  omap Cipher (toy_create Toy.saturated_world) = Ok [].
Proof.
  split.
  - apply (AESEncrypt_denied_returns_nil (prim := Toy.suite)).
    simpl. unfold maxConcurrentOps. lia.
  - reflexivity.
Defined.

(** * Further properties of the package *)

(** ** Padding and the guarded cipher *)

Lemma padding_ok_inv (l : bytes) (pad : Z) :
  padding_ok l pad = true -> l = repeat (to_byte pad) (length l).
Proof.
  induction l as [|b l IH]; simpl; intros H; [reflexivity|].
  destruct (Z.eqb_spec b (to_byte pad)) as [->|]; [|discriminate].
  f_equal. apply IH, H.
Qed.

(** X1: padding appends between 1 and 16 bytes, each holding their number,
    and fills up to the next multiple of 16 (a whole block when the data
    is already aligned); unpadding gives the data back. *)
Theorem PKCS7Pad_shape (data : bytes) :
  exists n : nat,
    (1 <= n <= 16)%nat /\
    PKCS7Pad data = data ++ repeat (Z.of_nat n) n /\
    length (PKCS7Pad data) = (16 * (length data / 16 + 1))%nat /\
    PKCS7Unpad (PKCS7Pad data) = Ok data.
Proof.
  exists (BlockSize - length data mod BlockSize)%nat.
  pose proof (pad_amount_range (length data)) as Hr.
  split; [exact Hr|]. split; [|split].
  - unfold PKCS7Pad, to_byte. rewrite Z.mod_small; [reflexivity|].
    unfold BlockSize in *. lia.
  - unfold PKCS7Pad. rewrite length_app, repeat_length. unfold BlockSize in *.
    pose proof (Nat.div_mod_eq (length data) 16). lia.
  - apply PKCS7_roundtrip.
Qed.

(** X2: whatever [PKCS7Unpad] accepts ends in a well-formed padding: between
    1 and 16 bytes, each holding their number, after the result. *)
Theorem PKCS7Unpad_accepts_only_padding (data plain : bytes) :
  PKCS7Unpad data = Ok plain ->
  exists n : nat,
    (1 <= n <= 16)%nat /\ data = plain ++ repeat (Z.of_nat n) n.
Proof.
  unfold PKCS7Unpad. destruct (last data) as [pad|] eqn:Hl; [|discriminate].
  destruct (Z.ltb_spec (Z.of_nat BlockSize) pad); [discriminate|].
  destruct (Z.eqb_spec pad 0); [discriminate|]. simpl.
  destruct (Z.ltb_spec (Z.of_nat (length data)) pad); [discriminate|].
  destruct (Z.ltb_spec pad 0); [discriminate|].
  destruct (padding_ok (drop (length data - Z.to_nat pad) data) pad) eqn:Hp;
    [|discriminate].
  intros Hok. injection Hok as <-.
  exists (Z.to_nat pad). unfold BlockSize in *. split; [lia|].
  apply padding_ok_inv in Hp. rewrite length_drop in Hp.
  replace (length data - (length data - Z.to_nat pad))%nat with (Z.to_nat pad) in Hp by lia.
  unfold to_byte in Hp. rewrite Z.mod_small in Hp by lia.
  rewrite Z2Nat.id by lia. rewrite <- Hp. symmetry. apply take_drop.
Qed.

Lemma PKCS7Unpad_accepts_only_padding_witness :
  exists n : nat,
    (1 <= n <= 16)%nat /\ [104; 105; 3; 3; 3] = [104; 105] ++ repeat (Z.of_nat n) n.
Proof.
  apply (PKCS7Unpad_accepts_only_padding [104; 105; 3; 3; 3] [104; 105]).
  reflexivity.
Defined.

Lemma PKCS7Unpad_panic_cases (data : bytes) :
  Forall is_byte data ->
  (PKCS7Unpad data = Panic <->
   exists b, last data = Some b /\ 1 <= b <= 16 /\ Z.of_nat (length data) < b).
Proof.
  intros Hb.
  unfold PKCS7Unpad. destruct (last data) as [pad|] eqn:Hl.
  - assert (Hpad : is_byte pad).
    { rewrite Forall_forall in Hb. apply Hb.
      apply last_Some in Hl as [l' ->]. apply elem_of_app. right. apply list_elem_of_singleton. reflexivity. }
    unfold is_byte in Hpad. unfold BlockSize.
    destruct (Z.ltb_spec (Z.of_nat 16) pad); simpl.
    + split; [discriminate|]. intros (b & Hb' & Hr & _). injection Hb' as <-. lia.
    + destruct (Z.eqb_spec pad 0); simpl.
      * split; [discriminate|]. intros (b & Hb' & Hr & _). injection Hb' as <-. lia.
      * destruct (Z.ltb_spec (Z.of_nat (length data)) pad).
        -- split; [|reflexivity]. intros _. exists pad. repeat split; lia.
        -- destruct (Z.ltb_spec pad 0); [lia|].
           destruct (padding_ok _ pad);
             (split; [discriminate|]; intros (b & Hb' & _ & Hlt); injection Hb' as <-; lia).
  - split; [discriminate|]. intros (b & Hb' & _). discriminate.
Qed.

(** X3: on byte data [PKCS7Unpad] reports empty input as an error and panics
    in exactly one case: the final byte, between 1 and 16, exceeds the
    length of the data. *)
Theorem PKCS7Unpad_panics_iff_short (data : bytes) :
  Forall is_byte data ->
  PKCS7Unpad [] = Err ErrEmptyData /\
  (PKCS7Unpad data = Panic <->
   exists b, last data = Some b /\ 1 <= b <= 16 /\ Z.of_nat (length data) < b).
Proof.
  intros Hb. split; [reflexivity|]. apply PKCS7Unpad_panic_cases, Hb.
Qed.

Lemma PKCS7Unpad_panics_iff_short_witness :
  PKCS7Unpad [] = Err ErrEmptyData /\
  (PKCS7Unpad [7; 5] = Panic <->
   exists b, last [7; 5] = Some b /\ 1 <= b <= 16 /\ Z.of_nat (length [7; 5]) < b).
Proof.
  apply (PKCS7Unpad_panics_iff_short [7; 5]).
  repeat constructor; unfold is_byte; lia.
Defined.

Lemma lxor_byte (a b : Z) : is_byte a -> is_byte b -> is_byte (Z.lxor a b).
Proof.
  unfold is_byte. intros Ha Hb.
  assert (H0 : 0 <= Z.lxor a b) by (apply Z.lxor_nonneg; lia).
  split; [exact H0|].
  destruct (Z.eq_dec (Z.lxor a b) 0) as [->|Hne]; [lia|].
  change 256 with (2 ^ 8).
  apply (proj2 (Z.log2_lt_pow2 (Z.lxor a b) 8 ltac:(lia))).
  pose proof (Z.log2_lxor a b ltac:(lia) ltac:(lia)) as Hl.
  assert (Z.log2 a < 8).
  { destruct (Z.eq_dec a 0) as [->|]; [simpl; lia|].
    apply (proj1 (Z.log2_lt_pow2 a 8 ltac:(lia))). lia. }
  assert (Z.log2 b < 8).
  { destruct (Z.eq_dec b 0) as [->|]; [simpl; lia|].
    apply (proj1 (Z.log2_lt_pow2 b 8 ltac:(lia))). lia. }
  lia.
Qed.

Lemma toy_cipher_shape : CipherShape Toy.suite.
Proof.
  split; simpl.
  - intros key iv c. apply length_map.
  - intros key iv c Hk Hc.
    assert (Hx : is_byte (Toy.xor_key key)).
    { unfold Toy.xor_key. destruct Hk as [|k key' Hk0 _]; simpl;
        [unfold is_byte; lia|exact Hk0]. }
    induction Hc as [|b c Hb0 _ IH]; simpl; constructor;
      [apply lxor_byte; assumption|exact IH].
Qed.

Section GuardedCipher.
Context `{prim : Primitives} {ok : PrimitivesOk prim}.

Lemma AESEncrypt_admitted_length (key iv plaintext c : bytes) :
  AESEncrypt_admitted key iv plaintext = Ok c ->
  length c = length (PKCS7Pad plaintext).
Proof.
  unfold AESEncrypt_admitted, CryptBlocks.
  destruct (aes_NewCipher key); [discriminate|].
  destruct (negb (length iv =? BlockSize)%nat); [discriminate|].
  destruct (negb (length (PKCS7Pad plaintext) mod BlockSize =? 0)%nat); [discriminate|].
  intros H. injection H as <-. apply cbc_encrypt_length.
Qed.

(** X4: through the guard and back: with a 32-byte key, a 16-byte IV and a
    free slot, [AESEncrypt] returns a ciphertext of whole blocks, one
    block more than the plaintext fills, gives its slot back, and
    [AESDecrypt] of that ciphertext returns the plaintext. *)
Theorem guarded_AES_roundtrip (key iv plaintext : bytes) (w : World) :
  length key = 32%nat -> length iv = 16%nat ->
  in_int64 (concurrentOps w) -> concurrentOps w < maxConcurrentOps ->
  let enc := AESEncrypt key iv plaintext w in
  exists c,
    enc.1 = Ok c /\
    length c = (16 * (length plaintext / 16 + 1))%nat /\
    concurrentOps enc.2 = concurrentOps w /\
    (AESDecrypt key iv c enc.2).1 = Ok plaintext.
Proof.
  intros Hk Hiv Hr Hadm enc.
  destruct (AES_admitted_roundtrip key iv plaintext Hk Hiv) as (c & Henc & _ & Hdec).
  pose proof (AESEncrypt_releases key iv plaintext w Hr) as Hrel.
  exists c. subst enc. split; [|split; [|split]].
  - unfold AESEncrypt. rewrite (ConcurrencyCheck_admits w Hadm). exact Henc.
  - rewrite (AESEncrypt_admitted_length key iv plaintext c Henc).
    unfold PKCS7Pad. rewrite length_app, repeat_length.
    pose proof (pad_amount_range (length plaintext)) as Hp. unfold BlockSize in *.
    pose proof (Nat.div_mod_eq (length plaintext) 16). lia.
  - exact Hrel.
  - unfold AESDecrypt. rewrite ConcurrencyCheck_admits by (rewrite Hrel; exact Hadm).
    exact Hdec.
Qed.

End GuardedCipher.

Lemma guarded_AES_roundtrip_witness :
  let enc := AESEncrypt (prim := Toy.suite) (take 32 Toy.secret64) Toy.iv16
               Toy.hello initial_world in
  exists c,
    enc.1 = Ok c /\
    length c = (16 * (length Toy.hello / 16 + 1))%nat /\
    concurrentOps enc.2 = concurrentOps initial_world /\
    (AESDecrypt (prim := Toy.suite) (take 32 Toy.secret64) Toy.iv16 c enc.2).1
      = Ok Toy.hello.
Proof.
  apply (guarded_AES_roundtrip (ok := toy_suite_ok)).
  - reflexivity.
  - reflexivity.
  - vm_compute. split; discriminate.
  - vm_compute. reflexivity.
Defined.

Section GuardedCipherEdges.
Context `{prim : Primitives}.

(** X5: a key that is not 16, 24 or 32 bytes long: an admitted [AESEncrypt]
    panics, an admitted [AESDecrypt] returns the key-size error, and
    either way the slot is given back. *)
Theorem AES_wrong_key_size (key iv data : bytes) (w : World) :
  length key <> 16%nat -> length key <> 24%nat -> length key <> 32%nat ->
  in_int64 (concurrentOps w) -> concurrentOps w < maxConcurrentOps ->
  (AESEncrypt key iv data w).1 = Panic /\
  (AESDecrypt key iv data w).1 = Err ErrKeySize /\
  concurrentOps (AESEncrypt key iv data w).2 = concurrentOps w /\
  concurrentOps (AESDecrypt key iv data w).2 = concurrentOps w.
Proof.
  intros H16 H24 H32 Hr Hadm.
  assert (Hc : aes_NewCipher key = Some ErrKeySize).
  { unfold aes_NewCipher.
    destruct (Nat.eqb_spec (length key) 16); [contradiction|].
    destruct (Nat.eqb_spec (length key) 24); [contradiction|].
    destruct (Nat.eqb_spec (length key) 32); [contradiction|]. reflexivity. }
  split; [|split; [|split]].
  - unfold AESEncrypt, AESEncrypt_admitted.
    rewrite (ConcurrencyCheck_admits w Hadm), Hc. reflexivity.
  - unfold AESDecrypt, AESDecrypt_admitted.
    rewrite (ConcurrencyCheck_admits w Hadm), Hc. reflexivity.
  - apply AESEncrypt_releases, Hr.
  - apply AESDecrypt_releases, Hr.
Qed.

Lemma Create_counter (plaintext sharedSecret ecdhPub iv nonce rnd : bytes)
    (ecdsaPriv : ECDSAPrivateKey) (rsaPriv : RSAPrivateKey) (now : Z) (w : World) :
  in_int64 (concurrentOps w) ->
  concurrentOps (CreateSecureMessage plaintext sharedSecret ecdsaPriv ecdhPub
                   rsaPriv iv nonce rnd now w).2 = concurrentOps w.
Proof.
  intros Hr. unfold CreateSecureMessage.
  destruct (slice_to sharedSecret AESKeySize) as [key|e| |]; try reflexivity.
  pose proof (AESEncrypt_releases key iv plaintext w Hr) as Hrel.
  destruct (AESEncrypt key iv plaintext w) as [[c|e| |] w1]; exact Hrel.
Qed.

Lemma Verify_counter (msg : Message) (sharedSecret rsaPubKey : bytes)
    (now : Z) (ts ti : Time) (w : World) :
  in_int64 (concurrentOps w) ->
  concurrentOps (VerifyAndDecryptMessage msg sharedSecret rsaPubKey now ts ti w).2
    = concurrentOps w.
Proof.
  intros Hr. unfold VerifyAndDecryptMessage.
  destruct (timestamp_rejected now (Timestamp msg)); [reflexivity|].
  cbn [globalNonceTracker enter].
  destruct (AddNonce (globalNonceTracker w) (Nonce msg) ts ti) as [[e|] nt];
    [reflexivity|].
  destruct (slice_from sharedSecret AESKeySize) as [macKey|e| |]; try reflexivity.
  destruct (negb (VerifyHMAC macKey (Cipher msg) (HMAC msg))); [reflexivity|].
  destruct (negb (VerifyECDSA (PubKey msg) (Cipher msg) (Signature msg)));
    [reflexivity|].
  destruct (negb (VerifyRSA rsaPubKey (Cipher msg) (RSASig msg))); [reflexivity|].
  destruct (slice_to sharedSecret AESKeySize) as [key|e| |]; try reflexivity.
  match goal with
  | |- context [AESDecrypt ?k ?i ?c ?w0] =>
      pose proof (AESDecrypt_releases k i c w0 Hr) as Hrel;
      destruct (AESDecrypt k i c w0) as [[p|e| |] w1]
  end; exact Hrel.
Qed.

(** X7: whatever a message operation returns, error and panic included, the
    in-flight counter is afterwards what it was before. *)
Theorem message_operations_release_slot
    (plaintext sharedSecret ecdhPub rsaPubKey iv nonce rnd : bytes)
    (ecdsaPriv : ECDSAPrivateKey) (rsaPriv : RSAPrivateKey) (msg : Message)
    (now : Z) (ts ti : Time) (w : World) :
  in_int64 (concurrentOps w) ->
  concurrentOps (CreateSecureMessage plaintext sharedSecret ecdsaPriv ecdhPub
                   rsaPriv iv nonce rnd now w).2 = concurrentOps w /\
  concurrentOps (VerifyAndDecryptMessage msg sharedSecret rsaPubKey now ts ti w).2
    = concurrentOps w.
Proof.
  intros Hr. split; [apply Create_counter, Hr|apply Verify_counter, Hr].
Qed.

End GuardedCipherEdges.

Lemma AES_wrong_key_size_witness :
  (AESEncrypt (prim := Toy.suite) [1; 2; 3] Toy.iv16 Toy.hello initial_world).1 = Panic /\
  (AESDecrypt (prim := Toy.suite) [1; 2; 3] Toy.iv16 Toy.hello initial_world).1
    = Err ErrKeySize /\
  concurrentOps (AESEncrypt (prim := Toy.suite) [1; 2; 3] Toy.iv16 Toy.hello
                   initial_world).2 = concurrentOps initial_world /\
  concurrentOps (AESDecrypt (prim := Toy.suite) [1; 2; 3] Toy.iv16 Toy.hello
                   initial_world).2 = concurrentOps initial_world.
Proof.
  apply (AES_wrong_key_size (prim := Toy.suite)); try (simpl; lia).
  - vm_compute. split; discriminate.
  - vm_compute. reflexivity.
Defined.

Lemma message_operations_release_slot_witness :
  concurrentOps (CreateSecureMessage (prim := Toy.suite) Toy.hello Toy.secret64
                   Toy.alice Toy.alice_pub Toy.rsa_priv Toy.iv16 Toy.nonce16 []
                   1700000000 (set_concurrentOps 57 initial_world)).2 = 57 /\
  concurrentOps (VerifyAndDecryptMessage (prim := Toy.suite)
                   {| Timestamp := 1700000000; Nonce := Toy.nonce16; IV := Toy.iv16;
                      Cipher := []; HMAC := Toy.secret64; Signature := [];
                      PubKey := Toy.alice_pub; RSASig := [] |}
                   Toy.secret64 Toy.rsa_pub 1700000000 0 0
                   (set_concurrentOps 57 initial_world)).2 = 57.
Proof.
  apply (message_operations_release_slot (prim := Toy.suite)
           Toy.hello Toy.secret64 Toy.alice_pub Toy.rsa_pub Toy.iv16 Toy.nonce16 []
           Toy.alice Toy.rsa_priv _ 1700000000 0 0 (set_concurrentOps 57 initial_world)).
  vm_compute. split; discriminate.
Defined.

Section DecryptPanics.
Context `{prim : Primitives} {shape : CipherShape prim}.

(** X6: with a key of a valid length and a free slot, [AESDecrypt] of byte
    data panics exactly when the IV is not 16 bytes long or the
    ciphertext is not a whole number of blocks; the padding check itself
    never panics there, and an empty ciphertext is an error. *)
Theorem AESDecrypt_panics_iff (key iv c : bytes) (w : World) :
  aes_NewCipher key = None ->
  Forall is_byte key -> Forall is_byte c ->
  concurrentOps w < maxConcurrentOps ->
  ((AESDecrypt key iv c w).1 = Panic <->
   (length iv <> 16%nat \/ (length c mod 16 <> 0)%nat)) /\
  (length iv = 16%nat -> c = [] -> (AESDecrypt key iv c w).1 = Err ErrEmptyData).
Proof.
  intros Hkey Hkb Hcb Hadm.
  unfold AESDecrypt, AESDecrypt_admitted, CryptBlocks.
  rewrite (ConcurrencyCheck_admits w Hadm), Hkey. cbn [fst]. unfold BlockSize.
  destruct (Nat.eqb_spec (length iv) 16) as [Hiv|Hiv]; cbn [negb].
  2:{ split; [|contradiction]. split; auto. }
  destruct (Nat.eqb_spec (length c mod 16) 0) as [Hc|Hc]; cbn [negb].
  2:{ split; [split; auto|]. intros _ ->. simpl in Hc. contradiction. }
  cbn [obind]. split.
  - split; [|intros [?|?]; contradiction].
    intros Hp. exfalso.
    apply PKCS7Unpad_panic_cases in Hp; [|apply cbc_decrypt_bytes; assumption].
    destruct Hp as (b & Hl & Hb & Hlt).
    rewrite cbc_decrypt_length in Hlt.
    destruct c as [|c0 c'].
    + pose proof (cbc_decrypt_length key iv []) as Hz.
      destruct (cbc_decrypt key iv []); [discriminate Hl|discriminate Hz].
    + pose proof (Nat.div_mod_eq (length (c0 :: c')) 16) as Hd.
      rewrite Hc in Hd. simpl length in *.
      destruct (length (c0 :: c') / 16)%nat eqn:Hq; simpl length in *; lia.
  - intros _ ->.
    pose proof (cbc_decrypt_length key iv []) as Hz.
    destruct (cbc_decrypt key iv []); [reflexivity|discriminate Hz].
Qed.

End DecryptPanics.

Lemma AESDecrypt_panics_iff_witness :
  ((AESDecrypt (prim := Toy.suite) (repeat 7 32) Toy.iv16 [1; 2; 3] initial_world).1
     = Panic <->
   (length Toy.iv16 <> 16%nat \/ (length [1; 2; 3] mod 16 <> 0)%nat)) /\
  (length Toy.iv16 = 16%nat -> [1; 2; 3] = [] ->
   (AESDecrypt (prim := Toy.suite) (repeat 7 32) Toy.iv16 [1; 2; 3] initial_world).1
     = Err ErrEmptyData).
Proof.
  apply (AESDecrypt_panics_iff (shape := toy_cipher_shape)).
  - reflexivity.
  - apply Forall_forall. intros x Hx. apply list_elem_of_In, repeat_spec in Hx.
    subst x. unfold is_byte. lia.
  - repeat constructor; unfold is_byte; lia.
  - vm_compute. reflexivity.
Defined.

(** ** The MAC check *)

Lemma ct_fold_zero_iff (x y : bytes) (v : Z) :
  length x = length y ->
  (ct_fold x y v = 0 <-> v = 0 /\ x = y).
Proof.
  revert y v. induction x as [|a x IH]; intros [|b y] v Hlen; try discriminate.
  - simpl. split; [intros ->; auto|intros [-> _]; reflexivity].
  - simpl. injection Hlen as Hlen. rewrite (IH y _ Hlen).
    rewrite Z.lor_eq_0_iff, Z.lxor_eq_0_iff. split.
    + intros [[-> ->] ->]. auto.
    + intros [-> Heq]. injection Heq as -> ->. auto.
Qed.

Lemma ConstantTimeCompare_eq (x y : bytes) :
  ConstantTimeCompare x y = 1 <-> x = y.
Proof.
  unfold ConstantTimeCompare.
  destruct (Nat.eqb_spec (length x) (length y)) as [Hl|Hl]; cbn [negb].
  - destruct (Z.eqb_spec (ct_fold x y 0) 0) as [Hz|Hz].
    + apply ct_fold_zero_iff in Hz; [|exact Hl]. destruct Hz as [_ ->]. tauto.
    + split; [discriminate|]. intros ->. contradiction Hz.
      apply ct_fold_zero_iff; auto.
  - split; [discriminate|]. intros ->. contradiction.
Qed.

Lemma VerifyHMAC_true_iff `{prim : Primitives} (key data mac : bytes) :
  VerifyHMAC key data mac = true <-> mac = GenerateHMAC key data.
Proof.
  unfold VerifyHMAC. rewrite Z.eqb_eq. apply ConstantTimeCompare_eq.
Qed.

(** X9: the comparison returns 1 on equal slices and 0 on all others,
    different lengths included, so [VerifyHMAC] accepts a tag exactly
    when it is the tag [GenerateHMAC] computes. *)
Theorem VerifyHMAC_accepts_exactly_the_tag `{prim : Primitives}
    (key data mac : bytes) :
  (forall x y : bytes, ConstantTimeCompare x y = if decide (x = y) then 1 else 0) /\
  (VerifyHMAC key data mac = true <-> mac = GenerateHMAC key data).
Proof.
  split; [|apply VerifyHMAC_true_iff].
  intros x y. destruct (decide (x = y)) as [Heq|Hne].
  - apply ConstantTimeCompare_eq, Heq.
  - pose proof (ConstantTimeCompare_eq x y) as Hiff.
    unfold ConstantTimeCompare in *.
    destruct (negb (length x =? length y)%nat); [reflexivity|].
    destruct (ct_fold x y 0 =? 0); [|reflexivity].
    contradiction Hne. apply Hiff. reflexivity.
Qed.

(** ** What a verification accepts and rejects *)

Section Acceptance.
Context `{prim : Primitives}.

(** The result of a verification that gets past the timestamp and nonce
    tests, with a secret long enough to slice. *)
Lemma Verify_past_replay (msg : Message) (sharedSecret rsaPubKey : bytes)
    (now : Z) (ts ti : Time) (w : World) :
  (AESKeySize <= length sharedSecret)%nat ->
  timestamp_rejected now (Timestamp msg) = false ->
  nt_nonces (globalNonceTracker w) !! Nonce msg = None ->
  (VerifyAndDecryptMessage msg sharedSecret rsaPubKey now ts ti w).1 =
  if negb (VerifyHMAC (drop AESKeySize sharedSecret) (Cipher msg) (HMAC msg))
  then Err ErrHMAC
  else if negb (VerifyECDSA (PubKey msg) (Cipher msg) (Signature msg))
  then Err ErrECDSA
  else if negb (VerifyRSA rsaPubKey (Cipher msg) (RSASig msg)) then Err ErrRSA
  else
    match (AESDecrypt (take AESKeySize sharedSecret) (IV msg) (Cipher msg) w).1 with
    | Err e => Err (ErrDecrypt e)
    | r => r
    end.
Proof.
  intros Hlen Hf Hn. unfold VerifyAndDecryptMessage. rewrite Hf.
  cbn [globalNonceTracker enter]. unfold AddNonce. rewrite Hn.
  rewrite slice_from_ok, slice_to_ok by exact Hlen.
  destruct (negb (VerifyHMAC _ (Cipher msg) (HMAC msg))); [reflexivity|].
  destruct (negb (VerifyECDSA (PubKey msg) (Cipher msg) (Signature msg)));
    [reflexivity|].
  destruct (negb (VerifyRSA rsaPubKey (Cipher msg) (RSASig msg))); [reflexivity|].
  match goal with
  | |- context [AESDecrypt ?k ?i ?c ?w0] =>
      rewrite <- (AESDecrypt_result_counter k i c w w0 eq_refl);
      destruct (AESDecrypt k i c w0) as [[p|e| |] w1]
  end; reflexivity.
Qed.

Lemma Verify_short_secret (msg : Message) (sharedSecret rsaPubKey : bytes)
    (now : Z) (ts ti : Time) (w : World) :
  (length sharedSecret < AESKeySize)%nat ->
  timestamp_rejected now (Timestamp msg) = false ->
  nt_nonces (globalNonceTracker w) !! Nonce msg = None ->
  (VerifyAndDecryptMessage msg sharedSecret rsaPubKey now ts ti w).1 = Panic.
Proof.
  intros Hlen Hf Hn. unfold VerifyAndDecryptMessage. rewrite Hf.
  cbn [globalNonceTracker enter]. unfold AddNonce. rewrite Hn.
  unfold slice_from. destruct (Nat.leb_spec AESKeySize (length sharedSecret)); [lia|].
  reflexivity.
Qed.

Lemma Verify_ok_iff (msg : Message) (sharedSecret rsaPubKey : bytes)
    (now : Z) (ts ti : Time) (w : World) (plaintext : bytes) :
  (VerifyAndDecryptMessage msg sharedSecret rsaPubKey now ts ti w).1 = Ok plaintext <->
  timestamp_rejected now (Timestamp msg) = false /\
  nt_nonces (globalNonceTracker w) !! Nonce msg = None /\
  (AESKeySize <= length sharedSecret)%nat /\
  HMAC msg = GenerateHMAC (drop AESKeySize sharedSecret) (Cipher msg) /\
  VerifyECDSA (PubKey msg) (Cipher msg) (Signature msg) = true /\
  VerifyRSA rsaPubKey (Cipher msg) (RSASig msg) = true /\
  concurrentOps w < maxConcurrentOps /\
  AESDecrypt_admitted (take AESKeySize sharedSecret) (IV msg) (Cipher msg) = Ok plaintext.
Proof.
  destruct (timestamp_rejected now (Timestamp msg)) eqn:Hf.
  { rewrite Verify_stale by exact Hf. split; [discriminate|]. intros [? _]. discriminate. }
  destruct (nt_nonces (globalNonceTracker w) !! Nonce msg) as [t|] eqn:Hn.
  { rewrite Verify_replay by (rewrite ?Hn; eauto).
    split; [discriminate|]. intros (_ & ? & _). discriminate. }
  destruct (Nat.leb_spec AESKeySize (length sharedSecret)) as [Hlen|Hlen].
  2:{ rewrite Verify_short_secret by assumption.
      split; [discriminate|]. intros (_ & _ & ? & _). lia. }
  rewrite Verify_past_replay by assumption.
  rewrite <- VerifyHMAC_true_iff.
  destruct (VerifyHMAC _ (Cipher msg) (HMAC msg)); cbn [negb].
  2:{ split; [discriminate|]. intros (_ & _ & _ & ? & _). discriminate. }
  destruct (VerifyECDSA (PubKey msg) (Cipher msg) (Signature msg)); cbn [negb].
  2:{ split; [discriminate|]. intros (_ & _ & _ & _ & ? & _). discriminate. }
  destruct (VerifyRSA rsaPubKey (Cipher msg) (RSASig msg)); cbn [negb].
  2:{ split; [discriminate|]. intros (_ & _ & _ & _ & _ & ? & _). discriminate. }
  unfold AESDecrypt, ConcurrencyCheck.
  destruct (Z.leb_spec maxConcurrentOps (concurrentOps w)) as [Hc|Hc]; cbn [fst].
  - split; [discriminate|]. intros (_ & _ & _ & _ & _ & _ & ? & _). lia.
  - destruct (AESDecrypt_admitted _ (IV msg) (Cipher msg)) as [p|e| |].
    + split.
      * intros Hp. injection Hp as ->. repeat split; auto.
      * intros (_ & _ & _ & _ & _ & _ & _ & Hp). exact Hp.
    + split; [discriminate|]. intros (_ & _ & _ & _ & _ & _ & _ & ?). discriminate.
    + split; [discriminate|]. intros (_ & _ & _ & _ & _ & _ & _ & ?). discriminate.
    + split; [discriminate|]. intros (_ & _ & _ & _ & _ & _ & _ & ?). discriminate.
Qed.

(** X10: a verification returns a plaintext exactly when the timestamp is in
    the window, the nonce is new, the secret has at least 32 bytes, the
    MAC field is the MAC of the ciphertext under the bytes of the secret
    after the first 32, both signatures verify, a slot is free, and the
    ciphertext decrypts and unpads to that plaintext under the first 32
    bytes of the secret. *)
Theorem accepted_iff_all_checks_pass (msg : Message) (sharedSecret rsaPubKey : bytes)
    (now : Z) (ts ti : Time) (w : World) (plaintext : bytes) :
  (VerifyAndDecryptMessage msg sharedSecret rsaPubKey now ts ti w).1 = Ok plaintext <->
  timestamp_rejected now (Timestamp msg) = false /\
  nt_nonces (globalNonceTracker w) !! Nonce msg = None /\
  (AESKeySize <= length sharedSecret)%nat /\
  HMAC msg = GenerateHMAC (drop AESKeySize sharedSecret) (Cipher msg) /\
  VerifyECDSA (PubKey msg) (Cipher msg) (Signature msg) = true /\
  VerifyRSA rsaPubKey (Cipher msg) (RSASig msg) = true /\
  concurrentOps w < maxConcurrentOps /\
  AESDecrypt_admitted (take AESKeySize sharedSecret) (IV msg) (Cipher msg) = Ok plaintext.
Proof. apply Verify_ok_iff. Qed.

(** X11: an envelope whose MAC field is anything but the MAC of its
    ciphertext is rejected with the MAC error, once it is fresh and its
    nonce is new; its nonce is on record afterwards. *)
Theorem wrong_mac_rejected (msg : Message) (sharedSecret rsaPubKey : bytes)
    (now : Z) (ts ti : Time) (w : World) :
  (AESKeySize <= length sharedSecret)%nat ->
  timestamp_rejected now (Timestamp msg) = false ->
  nt_nonces (globalNonceTracker w) !! Nonce msg = None ->
  HMAC msg <> GenerateHMAC (drop AESKeySize sharedSecret) (Cipher msg) ->
  let run := VerifyAndDecryptMessage msg sharedSecret rsaPubKey now ts ti w in
  run.1 = Err ErrHMAC /\
  nt_nonces (globalNonceTracker run.2) !! Nonce msg = Some ti.
Proof.
  intros Hlen Hf Hn Hmac run. subst run. split.
  - rewrite Verify_past_replay by assumption.
    destruct (VerifyHMAC _ (Cipher msg) (HMAC msg)) eqn:Hv; [|reflexivity].
    apply VerifyHMAC_true_iff in Hv. contradiction.
  - rewrite Verify_tracker, Hf. unfold AddNonce. rewrite Hn. simpl.
    apply lookup_insert_eq.
Qed.


End Acceptance.

Lemma wrong_mac_rejected_witness :
  exists msg,
    omap (with_HMAC [9; 9]) (toy_create initial_world) = Ok msg /\
    let run := VerifyAndDecryptMessage (prim := Toy.suite) msg Toy.secret64
                 Toy.rsa_pub 1700000000 0 42 initial_world in
    run.1 = Err ErrHMAC /\
    nt_nonces (globalNonceTracker run.2) !! Nonce msg = Some 42.
Proof.
  eexists. split; [reflexivity|].
  apply (wrong_mac_rejected (prim := Toy.suite)).
  - unfold AESKeySize. simpl. lia.
  - reflexivity.
  - reflexivity.
  - vm_compute. discriminate.
Defined.


(** ** Sweeps, capacity and reset of the nonce tracker *)

Lemma cleanupOldNonces_lookup (nt : NonceTracker) (now : Time) (nonce : bytes) (t : Time) :
  nt_nonces (cleanupOldNonces nt now) !! nonce = Some t <->
  nt_nonces nt !! nonce = Some t /\ now - nt_cleanupInterval nt <= t.
Proof.
  unfold cleanupOldNonces. cbn [nt_nonces with_nonces].
  rewrite map_lookup_filter_Some. cbn [snd].
  unfold Time_Before, Time_Add. rewrite Z.ltb_ge.
  split; intros [H1 H2]; (split; [exact H1|lia]).
Qed.

Lemma cleanupOldNonces_interval (nt : NonceTracker) (now : Time) :
  nt_cleanupInterval (cleanupOldNonces nt now) = nt_cleanupInterval nt.
Proof. reflexivity. Qed.

(** X13: a sweep keeps exactly the entries stamped no earlier than the sweep
    time less the cleanup interval; it never adds an entry and never
    makes the tracker larger. *)
Theorem sweep_keeps_exactly_recent (nt : NonceTracker) (now : Time) :
  (forall nonce t,
     nt_nonces (cleanupOldNonces nt now) !! nonce = Some t <->
     nt_nonces nt !! nonce = Some t /\ now - nt_cleanupInterval nt <= t) /\
  (size (nt_nonces (cleanupOldNonces nt now)) <= size (nt_nonces nt))%nat.
Proof.
  split; [intros nonce t; apply cleanupOldNonces_lookup|].
  unfold cleanupOldNonces. cbn [nt_nonces with_nonces].
  apply map_subseteq_size, map_filter_subseteq.
Qed.

(** X14: the size limit never turns a nonce away: a new nonce is accepted and
    recorded whatever the size, and while every entry is still inside
    the cleanup interval the tracker simply grows by one, beyond
    [maxSize] too. *)
Theorem nonce_capacity_is_advisory (nt : NonceTracker) (nonce : bytes)
    (now_sweep now_insert : Time) :
  nt_nonces nt !! nonce = None ->
  let run := AddNonce nt nonce now_sweep now_insert in
  run.1 = None /\
  nt_nonces run.2 !! nonce = Some now_insert /\
  ((forall k t, nt_nonces nt !! k = Some t -> now_sweep - nt_cleanupInterval nt <= t) ->
   size (nt_nonces run.2) = S (size (nt_nonces nt))).
Proof.
  intros Hn run. subst run. unfold AddNonce. rewrite Hn. cbn [fst snd].
  split; [reflexivity|]. split.
  - cbn [nt_nonces with_nonces]. apply lookup_insert_eq.
  - intros Hrecent. cbn [nt_nonces with_nonces].
    destruct (nt_maxSize nt <=? Z.of_nat (size (nt_nonces nt))).
    + unfold cleanupOldNonces. cbn [nt_nonces with_nonces].
      rewrite map_filter_id.
      * apply map_size_insert_None, Hn.
      * intros k t Hk. cbn [snd]. unfold Time_Before, Time_Add.
        apply Z.ltb_ge. specialize (Hrecent k t Hk). lia.
    + apply map_size_insert_None, Hn.
Qed.

Lemma nonce_capacity_is_advisory_witness :
  let nt := {| nt_nonces := {[ [1] := 100; [2] := 101 ]}; nt_maxSize := 2;
               nt_cleanupInterval := 50 |} in
  let run := AddNonce nt [3] 120 121 in
  run.1 = None /\
  nt_nonces run.2 !! [3] = Some 121 /\
  ((forall k t, nt_nonces nt !! k = Some t -> 120 - nt_cleanupInterval nt <= t) ->
   size (nt_nonces run.2) = S (size (nt_nonces nt))).
Proof.
  intros nt run. apply (nonce_capacity_is_advisory nt [3] 120 121). reflexivity.
Defined.

(** X15: replay protection outlives every sweep that runs within the cleanup
    interval of the recording: after any number of such sweeps the nonce
    is still turned away.  One sweep later than that forgets the nonce,
    and it is accepted again. *)
Theorem replay_protection_lasts_one_interval (nt : NonceTracker) (nonce : bytes)
    (t : Time) (sweeps : list Time) (late : Time) (a b : Time) :
  nt_nonces nt !! nonce = Some t ->
  Forall (fun s => s - nt_cleanupInterval nt <= t) sweeps ->
  t < late - nt_cleanupInterval nt ->
  let swept := fold_left cleanupOldNonces sweeps nt in
  AddNonce swept nonce a b = (Some ErrReplay, swept) /\
  (AddNonce (cleanupOldNonces swept late) nonce a b).1 = None.
Proof.
  intros Hn Hs Hlate swept.
  assert (Hinv : nt_nonces swept !! nonce = Some t /\
                 nt_cleanupInterval swept = nt_cleanupInterval nt).
  { subst swept. revert nt Hn Hs Hlate.
    induction sweeps as [|s rest IH]; intros nt Hn Hs Hlate; [auto|].
    simpl. inversion Hs as [|? ? Hs0 Hrest]; subst.
    destruct (IH (cleanupOldNonces nt s)) as [H1 H2]; auto.
    apply cleanupOldNonces_lookup. auto. }
  destruct Hinv as [Hl Hi]. split.
  - apply AddNonce_present. rewrite Hl. eauto.
  - unfold AddNonce.
    destruct (nt_nonces (cleanupOldNonces swept late) !! nonce) as [t'|] eqn:E;
      [|reflexivity].
    apply cleanupOldNonces_lookup in E as [E1 E2].
    rewrite Hl in E1. injection E1 as <-. rewrite Hi in E2. lia.
Qed.

Lemma replay_protection_lasts_one_interval_witness :
  let nt := {| nt_nonces := {[ [1] := 100 ]}; nt_maxSize := 10;
               nt_cleanupInterval := 50 |} in
  let swept := fold_left cleanupOldNonces [120; 150] nt in
  AddNonce swept [1] 0 0 = (Some ErrReplay, swept) /\
  (AddNonce (cleanupOldNonces swept 151) [1] 0 0).1 = None.
Proof.
  intros nt swept.
  apply (replay_protection_lasts_one_interval nt [1] 100 [120; 150] 151 0 0).
  - reflexivity.
  - repeat constructor; simpl; lia.
  - simpl. lia.
Defined.

Section ReplayGaps.
Context `{prim : Primitives}.

Lemma AddNonce_interval (nt : NonceTracker) (nonce : bytes) (ts ti : Time) :
  nt_cleanupInterval (AddNonce nt nonce ts ti).2 = nt_cleanupInterval nt.
Proof.
  unfold AddNonce. destruct (nt_nonces nt !! nonce); [reflexivity|].
  destruct (nt_maxSize nt <=? Z.of_nat (size (nt_nonces nt))); reflexivity.
Qed.

Lemma AddNonce_stamp (nt : NonceTracker) (nonce : bytes) (ts ti : Time) :
  nt_nonces nt !! nonce = None ->
  nt_nonces (AddNonce nt nonce ts ti).2 !! nonce = Some ti.
Proof.
  intros Hn. unfold AddNonce. rewrite Hn. simpl. apply lookup_insert_eq.
Qed.

(** X16: the timestamp is outside the MAC and both signatures, and a swept
    nonce is forgotten: an envelope that was accepted once is accepted
    again, with the same plaintext, when it comes back with any
    timestamp inside the window after a sweep that ran more than the
    cleanup interval after its nonce was recorded. *)
Theorem restamped_replay_after_sweep (msg : Message) (sharedSecret rsaPubKey : bytes)
    (now1 : Z) (ts1 ti1 : Time) (late : Time) (stamp now2 : Z) (ts2 ti2 : Time)
    (w : World) (plaintext : bytes) :
  in_int64 (concurrentOps w) ->
  (VerifyAndDecryptMessage msg sharedSecret rsaPubKey now1 ts1 ti1 w).1 = Ok plaintext ->
  ti1 < late - nt_cleanupInterval (globalNonceTracker w) ->
  timestamp_rejected now2 stamp = false ->
  let w1 := (VerifyAndDecryptMessage msg sharedSecret rsaPubKey now1 ts1 ti1 w).2 in
  (VerifyAndDecryptMessage (with_Timestamp stamp msg) sharedSecret rsaPubKey
     now2 ts2 ti2 (ClearOldNonces late w1)).1 = Ok plaintext.
Proof.
  intros Hr Hfirst Hlate Hfresh w1.
  apply Verify_ok_iff in Hfirst as (Hf1 & Hn1 & Hlen & Hmac & He & Hrs & Hadm & Hdec).
  assert (Ht : globalNonceTracker w1
               = (AddNonce (globalNonceTracker w) (Nonce msg) ts1 ti1).2).
  { subst w1. rewrite Verify_tracker, Hf1. reflexivity. }
  apply Verify_ok_iff. cbn [Timestamp Nonce Cipher HMAC Signature PubKey RSASig IV with_Timestamp].
  repeat split; auto.
  - unfold ClearOldNonces. cbn [globalNonceTracker set_tracker].
    destruct (nt_nonces (cleanupOldNonces (globalNonceTracker w1) late) !! Nonce msg)
      as [t|] eqn:E; [|reflexivity].
    apply cleanupOldNonces_lookup in E as [E1 E2].
    rewrite Ht, AddNonce_interval in E2.
    rewrite Ht, (AddNonce_stamp _ _ ts1 ti1 Hn1) in E1. injection E1 as <-. lia.
  - unfold ClearOldNonces. cbn [concurrentOps set_tracker].
    subst w1. rewrite Verify_counter by exact Hr. exact Hadm.
Qed.

(** X17: [ResetNonceStorage] empties the tracker, and with it every replay
    record: the count is 0 and an envelope accepted before the reset is
    accepted again while it is fresh. *)
Theorem reset_reopens_replay (msg : Message) (sharedSecret rsaPubKey : bytes)
    (now1 : Z) (ts1 ti1 : Time) (now2 : Z) (ts2 ti2 : Time)
    (w : World) (plaintext : bytes) :
  in_int64 (concurrentOps w) ->
  (VerifyAndDecryptMessage msg sharedSecret rsaPubKey now1 ts1 ti1 w).1 = Ok plaintext ->
  timestamp_rejected now2 (Timestamp msg) = false ->
  let w1 := (VerifyAndDecryptMessage msg sharedSecret rsaPubKey now1 ts1 ti1 w).2 in
  0 < GetNonceCount w1 /\
  GetNonceCount (ResetNonceStorage w1) = 0 /\
  (VerifyAndDecryptMessage msg sharedSecret rsaPubKey now2 ts2 ti2
     (ResetNonceStorage w1)).1 = Ok plaintext.
Proof.
  intros Hr Hfirst Hfresh w1.
  apply Verify_ok_iff in Hfirst as (Hf1 & Hn1 & Hlen & Hmac & He & Hrs & Hadm & Hdec).
  split; [|split].
  - unfold GetNonceCount, GetCount. subst w1. rewrite Verify_tracker, Hf1.
    pose proof (AddNonce_stamp _ _ ts1 ti1 Hn1) as Hs.
    destruct (decide (size (nt_nonces
                (AddNonce (globalNonceTracker w) (Nonce msg) ts1 ti1).2) = 0%nat))
      as [Hz|Hz]; [|lia].
    apply map_size_empty_iff in Hz. rewrite Hz, lookup_empty in Hs. discriminate.
  - reflexivity.
  - apply Verify_ok_iff. repeat split; auto.
    unfold ResetNonceStorage. cbn [concurrentOps set_tracker].
    subst w1. rewrite Verify_counter by exact Hr. exact Hadm.
Qed.

End ReplayGaps.

Lemma restamped_replay_after_sweep_witness :
  exists msg,
    toy_create initial_world = Ok msg /\
    let w1 := (VerifyAndDecryptMessage (prim := Toy.suite) msg Toy.secret64
                 Toy.rsa_pub 1700000000 0 1000 initial_world).2 in
    (VerifyAndDecryptMessage (prim := Toy.suite) (with_Timestamp 1700000400 msg)
       Toy.secret64 Toy.rsa_pub 1700000400 0 0
       (ClearOldNonces (1000 + 5 * Minute + 1) w1)).1 = Ok Toy.hello.
Proof.
  eexists. split; [reflexivity|].
  apply (restamped_replay_after_sweep (prim := Toy.suite)).
  - vm_compute. split; discriminate.
  - reflexivity.
  - vm_compute. reflexivity.
  - reflexivity.
Defined.

Lemma reset_reopens_replay_witness :
  exists msg,
    toy_create initial_world = Ok msg /\
    let w1 := (VerifyAndDecryptMessage (prim := Toy.suite) msg Toy.secret64
                 Toy.rsa_pub 1700000000 0 1000 initial_world).2 in
    0 < GetNonceCount w1 /\
    GetNonceCount (ResetNonceStorage w1) = 0 /\
    (VerifyAndDecryptMessage (prim := Toy.suite) msg Toy.secret64 Toy.rsa_pub
       1700000001 0 0 (ResetNonceStorage w1)).1 = Ok Toy.hello.
Proof.
  eexists. split; [reflexivity|].
  apply (reset_reopens_replay (prim := Toy.suite)).
  - vm_compute. split; discriminate.
  - reflexivity.
  - reflexivity.
Defined.

(** ** Signatures and key encodings *)

Section Signatures.
Context `{prim : Primitives} {ok : PrimitivesOk prim}.

(** X20: what [SignECDSA] and [SignRSA] produce verifies under the encoded
    public key that [GenerateECDHKeys] and [GenerateRSAKeys] hand out,
    for every message and every signing entropy. *)
Theorem signatures_verify_under_generated_keys
    (ecdsaPriv : ECDSAPrivateKey) (rsaPriv : RSAPrivateKey) (data rnd : bytes) :
  ecdsa_key_valid ecdsaPriv ->
  (exists sig, SignECDSA ecdsaPriv data rnd = Ok sig /\
     VerifyECDSA (GenerateECDHKeys ecdsaPriv).2 data sig = true) /\
  (exists sig, SignRSA rsaPriv data = Ok sig /\
     VerifyRSA (GenerateRSAKeys rsaPriv).2 data sig = true).
Proof.
  intros Hv. split; [apply SignECDSA_verifies, Hv|apply SignRSA_verifies].
Qed.

(** X21: a public key of the other kind: [VerifyECDSA] given an RSA key and
    [VerifyRSA] given an ECDSA key return false for every message and
    signature, whereas [ComputeSharedSecret] given an RSA key panics. *)
Theorem key_of_the_other_kind
    (ecdsaPriv : ECDSAPrivateKey) (rsaPriv : RSAPrivateKey) (data sig : bytes) :
  VerifyECDSA (GenerateRSAKeys rsaPriv).2 data sig = false /\
  VerifyRSA (GenerateECDHKeys ecdsaPriv).2 data sig = false /\
  ComputeSharedSecret ecdsaPriv (GenerateRSAKeys rsaPriv).2 = Panic.
Proof.
  unfold VerifyECDSA, VerifyRSA, ComputeSharedSecret, GenerateRSAKeys, GenerateECDHKeys.
  cbn [snd]. rewrite x509_parse_rsa, x509_parse_ecdsa. auto.
Qed.

End Signatures.

Lemma signatures_verify_under_generated_keys_witness :
  (exists sig, SignECDSA (prim := Toy.suite) Toy.alice Toy.hello [] = Ok sig /\
     VerifyECDSA (prim := Toy.suite)
       (GenerateECDHKeys (prim := Toy.suite) Toy.alice).2 Toy.hello sig = true) /\
  (exists sig, SignRSA (prim := Toy.suite) Toy.rsa_priv Toy.hello = Ok sig /\
     VerifyRSA (prim := Toy.suite)
       (GenerateRSAKeys (prim := Toy.suite) Toy.rsa_priv).2 Toy.hello sig = true).
Proof.
  apply (signatures_verify_under_generated_keys (ok := toy_suite_ok)). reflexivity.
Defined.

Lemma key_of_the_other_kind_witness :
  VerifyECDSA (prim := Toy.suite)
    (GenerateRSAKeys (prim := Toy.suite) Toy.rsa_priv).2 Toy.hello [1; 2] = false /\
  VerifyRSA (prim := Toy.suite)
    (GenerateECDHKeys (prim := Toy.suite) Toy.alice).2 Toy.hello [1; 2] = false /\
  ComputeSharedSecret (prim := Toy.suite) Toy.alice
    (GenerateRSAKeys (prim := Toy.suite) Toy.rsa_priv).2 = Panic.
Proof.
  apply (key_of_the_other_kind (ok := toy_suite_ok)).
Defined.

(** ** Diffie-Hellman key pairs and the signed exchange *)

Section DH.
Context `{prim : Primitives}.

(** X22: [GenerateDHKeyPair] panics when the modulus is at most 1.  Otherwise
    it returns a pair over the given parameters whose private exponent
    lies in [[1, P-1]], both ends included, and whose public value is
    [G ^ private mod P]; every exponent of that interval comes from some
    draw. *)
Theorem GenerateDHKeyPair_range (params : DHParams) (draw : Z) :
  (dh_P params <= 1 -> GenerateDHKeyPair params draw = Panic) /\
  (1 < dh_P params ->
   exists kp,
     GenerateDHKeyPair params draw = Ok kp /\
     dh_Params kp = params /\
     1 <= dh_Private kp <= dh_P params - 1 /\
     dh_Public kp = dh_G params ^ dh_Private kp mod dh_P params /\
     0 <= dh_Public kp < dh_P params) /\
  (forall x, 1 <= x <= dh_P params - 1 ->
   exists kp, GenerateDHKeyPair params (x - 1) = Ok kp /\ dh_Private kp = x).
Proof.
  split; [|split].
  - intros HP. unfold GenerateDHKeyPair, rand_Int.
    destruct (Z.leb_spec (dh_P params - 1) 0); [reflexivity|lia].
  - intros HP. unfold GenerateDHKeyPair, rand_Int.
    destruct (Z.leb_spec (dh_P params - 1) 0); [lia|]. cbn [obind].
    pose proof (Z.mod_pos_bound draw (dh_P params - 1) ltac:(lia)) as Hb.
    rewrite big_Exp_nonneg by lia.
    eexists. split; [reflexivity|]. cbn [dh_Params dh_Private dh_Public].
    split; [reflexivity|]. split; [lia|]. split; [reflexivity|].
    apply Z.mod_pos_bound. lia.
  - intros x Hx. unfold GenerateDHKeyPair, rand_Int.
    destruct (Z.leb_spec (dh_P params - 1) 0); [lia|]. cbn [obind].
    rewrite Z.mod_small by lia.
    rewrite big_Exp_nonneg by lia.
    eexists. split; [reflexivity|]. cbn [dh_Private]. lia.
Qed.

End DH.

Section SignedExchange.
Context `{prim : Primitives} {ok : PrimitivesOk prim}.

Lemma standard_modulus_large : 1 < dh_P GenerateStandardDHParams.
Proof. apply Z.ltb_lt. vm_compute. reflexivity. Qed.

Lemma PerformDHKeyExchange_ok (rsaPrivate : RSAPrivateKey) (draw : Z) :
  exists exch,
    PerformDHKeyExchange rsaPrivate draw = DHOk exch /\
    GenerateDHKeyPair GenerateStandardDHParams draw = Ok (ex_DHKeyPair exch) /\
    ex_RSAPublicKey exch = x509_Marshal_rsa (rsa_PublicKey rsaPrivate) /\
    RSAVerifyDHPublicKey (rsa_PublicKey rsaPrivate) (dh_Public (ex_DHKeyPair exch))
      (ex_DHSignature exch) = true.
Proof.
  unfold PerformDHKeyExchange.
  destruct (GenerateDHKeyPair GenerateStandardDHParams draw) as [kp|e| |] eqn:Hkp.
  - unfold RSASignDHPublicKey, RSAVerifyDHPublicKey.
    destruct (rsa_sign_verify rsaPrivate (sha256_Sum256 (big_Bytes (dh_Public kp))))
      as (sig & Hs & Hv).
    rewrite Hs. eexists. split; [reflexivity|]. cbn. auto.
  - exfalso. unfold GenerateDHKeyPair, rand_Int in Hkp.
    destruct (dh_P GenerateStandardDHParams - 1 <=? 0); [discriminate|].
    cbn [obind] in Hkp. destruct (big_Exp _ _ _); discriminate.
  - exfalso. unfold GenerateDHKeyPair, rand_Int in Hkp.
    pose proof standard_modulus_large.
    destruct (Z.leb_spec (dh_P GenerateStandardDHParams - 1) 0); [lia|].
    cbn [obind] in Hkp.
    pose proof (Z.mod_pos_bound draw (dh_P GenerateStandardDHParams - 1) ltac:(lia)).
    rewrite big_Exp_nonneg in Hkp by lia. discriminate.
  - exfalso. unfold GenerateDHKeyPair, rand_Int in Hkp.
    destruct (dh_P GenerateStandardDHParams - 1 <=? 0); [discriminate|].
    cbn [obind] in Hkp. destruct (big_Exp _ _ _); discriminate.
Qed.

(** X23: two parties that each run [PerformDHKeyExchange] with their own RSA
    key and then [VerifyAndComputeSharedSecret] on the other's exchange
    both succeed and hold the same secret; it is 32 bytes long, so as a
    message secret its MAC-key segment is empty. *)
Theorem signed_exchange_agrees (rsaA rsaB : RSAPrivateKey) (drawA drawB : Z) :
  exists exA exB secret,
    PerformDHKeyExchange rsaA drawA = DHOk exA /\
    PerformDHKeyExchange rsaB drawB = DHOk exB /\
    VerifyAndComputeSharedSecret (dh_Private (ex_DHKeyPair exA))
      (dh_Params (ex_DHKeyPair exA)) exB = Some (DHOk secret) /\
    VerifyAndComputeSharedSecret (dh_Private (ex_DHKeyPair exB))
      (dh_Params (ex_DHKeyPair exB)) exA = Some (DHOk secret) /\
    length secret = 32%nat /\
    slice_from secret AESKeySize = Ok [].
Proof.
  destruct (PerformDHKeyExchange_ok rsaA drawA) as (exA & HA & HkA & HpA & HvA).
  destruct (PerformDHKeyExchange_ok rsaB drawB) as (exB & HB & HkB & HpB & HvB).
  pose proof standard_modulus_large as HP.
  set (P := dh_P GenerateStandardDHParams) in *.
  set (G := dh_G GenerateStandardDHParams).
  assert (HinvA : dh_Params (ex_DHKeyPair exA) = GenerateStandardDHParams /\
                  1 <= dh_Private (ex_DHKeyPair exA) /\
                  dh_Public (ex_DHKeyPair exA) = G ^ dh_Private (ex_DHKeyPair exA) mod P).
  { destruct (GenerateDHKeyPair_inv _ _ _ HkA) as (_ & Hr & Hq).
    split; [|split; [lia|exact Hq]].
    unfold GenerateDHKeyPair in HkA.
    destruct (rand_Int drawA _); try discriminate. cbn [obind] in HkA.
    destruct (big_Exp _ _ _); [|discriminate]. injection HkA as <-. reflexivity. }
  assert (HinvB : dh_Params (ex_DHKeyPair exB) = GenerateStandardDHParams /\
                  1 <= dh_Private (ex_DHKeyPair exB) /\
                  dh_Public (ex_DHKeyPair exB) = G ^ dh_Private (ex_DHKeyPair exB) mod P).
  { destruct (GenerateDHKeyPair_inv _ _ _ HkB) as (_ & Hr & Hq).
    split; [|split; [lia|exact Hq]].
    unfold GenerateDHKeyPair in HkB.
    destruct (rand_Int drawB _); try discriminate. cbn [obind] in HkB.
    destruct (big_Exp _ _ _); [|discriminate]. injection HkB as <-. reflexivity. }
  destruct HinvA as (HparA & HposA & HqA), HinvB as (HparB & HposB & HqB).
  exists exA, exB,
    (sha256_Sum256 (big_Bytes
       ((G ^ dh_Private (ex_DHKeyPair exB)) ^ dh_Private (ex_DHKeyPair exA) mod P))).
  split; [exact HA|]. split; [exact HB|].
  unfold VerifyAndComputeSharedSecret, ComputeDHSharedSecret.
  rewrite HpA, HpB, !x509_parse_rsa, HvA, HvB, HparA, HparB. cbn [negb].
  fold P. rewrite !big_Exp_nonneg by lia.
  rewrite HqA, HqB, !Z.mod_pow_l.
  split; [reflexivity|]. split.
  - rewrite <- !Z.pow_mul_r by lia.
    rewrite (Z.mul_comm (dh_Private (ex_DHKeyPair exA))). reflexivity.
  - pose proof (sha256_length (big_Bytes
      ((G ^ dh_Private (ex_DHKeyPair exB)) ^ dh_Private (ex_DHKeyPair exA) mod P))) as Hl.
    split; [exact Hl|].
    unfold AESKeySize. rewrite slice_from_ok by lia. rewrite drop_ge by lia. reflexivity.
Qed.

End SignedExchange.

Lemma signed_exchange_agrees_witness :
  exists exA exB secret,
    PerformDHKeyExchange (prim := Toy.suite) 3 0 = DHOk exA /\
    PerformDHKeyExchange (prim := Toy.suite) 4 1 = DHOk exB /\
    VerifyAndComputeSharedSecret (prim := Toy.suite) (dh_Private (ex_DHKeyPair exA))
      (dh_Params (ex_DHKeyPair exA)) exB = Some (DHOk secret) /\
    VerifyAndComputeSharedSecret (prim := Toy.suite) (dh_Private (ex_DHKeyPair exB))
      (dh_Params (ex_DHKeyPair exB)) exA = Some (DHOk secret) /\
    length secret = 32%nat /\
    slice_from secret AESKeySize = Ok [].
Proof.
  apply (signed_exchange_agrees (ok := toy_suite_ok) 3 4 0 1).
Defined.

(** ** The variant without replay tracking *)

Section LegacyFacts.
Context `{prim : Primitives} {ok : PrimitivesOk prim}.

Lemma Legacy_timestamp_in_window (now ts : Z) :
  0 <= ts <= MaxInt64 -> ts <= now <= ts + Legacy.MaxTimeDifference ->
  Legacy.timestamp_rejected now ts = false.
Proof.
  intros Hts Hw. unfold Legacy.timestamp_rejected, Legacy.MaxTimeDifference, sub64 in *.
  rewrite wrap64_small by (unfold in_int64, MinInt64, MaxInt64 in *; lia).
  apply orb_false_iff. rewrite !Z.ltb_ge. lia.
Qed.

(** X24: in the variant without nonce tracking and without the concurrency
    guard, an envelope built with a secret of at least 64 bytes and valid
    keys verifies to its plaintext at every time from its stamp to 60
    seconds later, however often it is presented; one second before its
    stamp and 61 seconds after it, it is rejected. *)
Theorem Legacy_roundtrip_and_replay
    (plaintext sharedSecret : bytes) (ecdsaPriv : ECDSAPrivateKey)
    (rsaPriv : RSAPrivateKey) (iv nonce rnd : bytes) (t0 : Z) :
  (64 <= length sharedSecret)%nat ->
  ecdsa_key_valid ecdsaPriv ->
  length iv = BlockSize ->
  0 < t0 <= MaxInt64 - 61 ->
  exists msg,
    Legacy.CreateSecureMessage plaintext sharedSecret ecdsaPriv
      (GenerateECDHKeys ecdsaPriv).2 rsaPriv iv nonce rnd t0 = Ok msg /\
    (forall now, t0 <= now <= t0 + 60 ->
       Legacy.VerifyAndDecryptMessage msg sharedSecret (GenerateRSAKeys rsaPriv).2 now
         = Ok plaintext) /\
    Legacy.VerifyAndDecryptMessage msg sharedSecret (GenerateRSAKeys rsaPriv).2 (t0 - 1)
      = Err ErrTimestamp /\
    Legacy.VerifyAndDecryptMessage msg sharedSecret (GenerateRSAKeys rsaPriv).2 (t0 + 61)
      = Err ErrTimestamp.
Proof.
  intros Hlen Hvalid Hiv Ht0.
  assert (Hk : length (take AESKeySize sharedSecret) = 32%nat).
  { rewrite length_take. unfold AESKeySize. lia. }
  destruct (AES_admitted_roundtrip (take AESKeySize sharedSecret) iv plaintext Hk Hiv)
    as (c & Henc & _ & Hdec).
  destruct (SignECDSA_verifies ecdsaPriv c rnd Hvalid) as (esig & Hes & Hev).
  destruct (SignRSA_verifies rsaPriv c) as (rsig & Hrs & Hrv).
  unfold GenerateECDHKeys, GenerateRSAKeys in *. cbn [snd] in *.
  unfold Legacy.CreateSecureMessage, Legacy.AESEncrypt.
  rewrite slice_to_ok, slice_from_ok by (unfold AESKeySize; lia).
  cbn [obind]. fold (AESEncrypt_admitted (take AESKeySize sharedSecret) iv plaintext).
  rewrite Henc. cbn [obind]. rewrite Hes. cbn [obind]. rewrite Hrs. cbn [obind].
  eexists. split; [reflexivity|].
  unfold Legacy.VerifyAndDecryptMessage.
  cbn [Timestamp Nonce Cipher HMAC Signature PubKey RSASig IV].
  split; [|split].
  - intros now Hw.
    rewrite Legacy_timestamp_in_window
      by (unfold Legacy.MaxTimeDifference, MaxInt64 in *; lia).
    rewrite slice_to_ok, slice_from_ok by (unfold AESKeySize; lia). cbn [obind].
    rewrite VerifyHMAC_GenerateHMAC, Hev, Hrv. cbn [negb].
    unfold Legacy.AESDecrypt.
    fold (AESDecrypt_admitted (take AESKeySize sharedSecret) iv c).
    rewrite Hdec. reflexivity.
  - unfold Legacy.timestamp_rejected.
    destruct (Z.ltb_spec (t0 - 1) t0); [|lia]. rewrite orb_true_r. reflexivity.
  - unfold Legacy.timestamp_rejected, Legacy.MaxTimeDifference, sub64.
    rewrite wrap64_small by (unfold in_int64, MinInt64, MaxInt64 in *; lia).
    destruct (Z.ltb_spec 60 (t0 + 61 - t0)); [|lia]. reflexivity.
Qed.

End LegacyFacts.

Lemma Legacy_roundtrip_and_replay_witness :
  exists msg,
    Legacy.CreateSecureMessage (prim := Toy.suite) Toy.hello Toy.secret64 Toy.alice
      (GenerateECDHKeys (prim := Toy.suite) Toy.alice).2 Toy.rsa_priv
      Toy.iv16 Toy.nonce16 [] 1700000000 = Ok msg /\
    (forall now, 1700000000 <= now <= 1700000000 + 60 ->
       Legacy.VerifyAndDecryptMessage (prim := Toy.suite) msg Toy.secret64
         (GenerateRSAKeys (prim := Toy.suite) Toy.rsa_priv).2 now = Ok Toy.hello) /\
    Legacy.VerifyAndDecryptMessage (prim := Toy.suite) msg Toy.secret64
      (GenerateRSAKeys (prim := Toy.suite) Toy.rsa_priv).2 (1700000000 - 1)
      = Err ErrTimestamp /\
    Legacy.VerifyAndDecryptMessage (prim := Toy.suite) msg Toy.secret64
      (GenerateRSAKeys (prim := Toy.suite) Toy.rsa_priv).2 (1700000000 + 61)
      = Err ErrTimestamp.
Proof.
  apply (Legacy_roundtrip_and_replay (ok := toy_suite_ok)).
  - simpl. lia.
  - reflexivity.
  - reflexivity.
  - unfold MaxInt64. lia.
Defined.

(** ** The window of timing measurements *)





Lemma RateLimitCheck_history_witness :
  let calls := [("alice"%string, 1000000000); ("bob"%string, 1002000000);
                ("alice"%string, 1005000000)] in
  (RateLimitCheck "alice" 1012000000 (rl_run calls).1).1 = Some ErrRateLimit <->
  exists t, (rl_run calls).2 !! "alice"%string = Some t /\
            1012000000 - t < 10 * Millisecond.
Proof.
  intros calls.
  apply (RateLimitCheck_history calls 0 "alice" 1012000000).
  - simpl. lia.
  - simpl. lia.
Defined.

(** ** The counter under interleaving, and the timestamp test in range *)

(** X8: under every interleaving of any number of goroutines the counter is
    the number of goroutines that hold a slot, between 0 and the number
    of goroutines; once all of them have returned it is 0 again. *)
Theorem counter_counts_slot_holders (n : nat) (s : Conc.state) :
  Z.of_nat n <= MaxInt64 ->
  rtc Conc.step_rel (Conc.init n) s ->
  Conc.counter s = Conc.in_flight s /\
  0 <= Conc.counter s <= Z.of_nat n /\
  (Forall (fun p => exists b, p = Conc.Finished b) (Conc.threads s) ->
   Conc.counter s = 0).
Proof.
  intros Hn Hreach.
  destruct (Conc_counter_is_in_flight n s Hn Hreach) as [Hc Hb].
  split; [exact Hc|]. split; [exact Hb|].
  intros Hfin. rewrite Hc. unfold Conc.in_flight.
  replace (filter (fun p => Conc.is_admitted p = true) (Conc.threads s))
    with (@nil Conc.pc); [reflexivity|].
  clear -Hfin. induction Hfin as [|p l [b ->] _ IH]; [reflexivity|].
  rewrite filter_cons. simpl. exact IH.
Qed.

Lemma counter_counts_slot_holders_witness :
  exists s,
    Conc.run [0; 1; 0; 1; 0; 1]%nat (Conc.init 2) = Some s /\
    Conc.counter s = Conc.in_flight s /\
    0 <= Conc.counter s <= Z.of_nat 2 /\
    (Forall (fun p => exists b, p = Conc.Finished b) (Conc.threads s) ->
     Conc.counter s = 0).
Proof.
  eexists. split; [reflexivity|].
  apply (counter_counts_slot_holders 2).
  - unfold MaxInt64. lia.
  - apply (Conc_run_sound [0; 1; 0; 1; 0; 1]%nat). reflexivity.
Defined.

(** X18: with a clock after the epoch and an age that fits [int64], the
    timestamp test rejects exactly the envelopes more than 30 seconds
    old or more than 30 seconds ahead; both ends of the window are
    accepted.  An age that does not fit [int64] passes the test. *)
Theorem timestamp_test_in_and_out_of_range (now ts : Z) :
  0 <= now <= MaxInt64 -> in_int64 ts ->
  (now - ts <= MaxInt64 ->
   (timestamp_rejected now ts = true <-> (30 < now - ts \/ 30 < ts - now))) /\
  (MaxInt64 < now - ts -> MinInt64 + 30 <= ts -> timestamp_rejected now ts = false).
Proof.
  intros Hnow Hts. unfold in_int64, MinInt64, MaxInt64 in *. split.
  - intros Hage.
    destruct (Z_lt_le_dec (ts - 30) (- 2 ^ 63)) as [Hwrap|Hno].
    + split; [intros _; lia|]. intros _.
      unfold timestamp_rejected, sub64. apply orb_true_iff. left.
      rewrite wrap64_small by (unfold in_int64, MinInt64, MaxInt64; lia).
      apply Z.ltb_lt. unfold MaxTimeDifference. lia.
    + rewrite timestamp_rejected_exact;
        unfold in_int64, MinInt64, MaxInt64, MaxTimeDifference; lia.
  - intros Hover Hlow. unfold timestamp_rejected, sub64, MaxTimeDifference.
    apply orb_false_iff. split.
    + apply Z.ltb_ge. unfold wrap64.
      replace ((now - ts + 2 ^ 63) mod 2 ^ 64) with (now - ts + 2 ^ 63 - 2 ^ 64).
      * lia.
      * apply Z.mod_unique with (q := 1); lia.
    + apply Z.ltb_ge.
      rewrite wrap64_small by (unfold in_int64, MinInt64, MaxInt64; lia). lia.
Qed.

Lemma timestamp_test_in_and_out_of_range_witness :
  (1700000000 - 1699999969 <= MaxInt64 ->
   (timestamp_rejected 1700000000 1699999969 = true <->
    (30 < 1700000000 - 1699999969 \/ 30 < 1699999969 - 1700000000))) /\
  (MaxInt64 < 1700000000 - 1699999969 -> MinInt64 + 30 <= 1699999969 ->
   timestamp_rejected 1700000000 1699999969 = false).
Proof.
  apply (timestamp_test_in_and_out_of_range 1700000000 1699999969).
  - unfold MaxInt64. lia.
  - unfold in_int64, MinInt64, MaxInt64. lia.
Defined.

(** ** The chat program *)

Section ChatFacts.
Context `{prim : Primitives} {ok : PrimitivesOk prim}.

(** Creation and verification with any secret of at least 32 bytes. *)
Lemma create_then_verify (plaintext sharedSecret : bytes) (ecdsaPriv : ECDSAPrivateKey)
    (rsaPriv : RSAPrivateKey) (iv nonce rnd : bytes) (t0 : Z) (w0 : World) :
  (AESKeySize <= length sharedSecret)%nat ->
  ecdsa_key_valid ecdsaPriv ->
  length iv = BlockSize ->
  0 <= t0 <= MaxInt64 ->
  concurrentOps w0 < maxConcurrentOps ->
  exists msg w0',
    CreateSecureMessage plaintext sharedSecret ecdsaPriv
      (GenerateECDHKeys ecdsaPriv).2 rsaPriv iv nonce rnd t0 w0 = (Ok msg, w0') /\
    Nonce msg = nonce /\
    HMAC msg = GenerateHMAC (drop AESKeySize sharedSecret) (Cipher msg) /\
    forall (now : Z) (ts ti : Time) (w1 : World),
      - MaxTimeDifference <= now - t0 <= MaxTimeDifference ->
      nt_nonces (globalNonceTracker w1) !! nonce = None ->
      concurrentOps w1 < maxConcurrentOps ->
      (VerifyAndDecryptMessage msg sharedSecret (GenerateRSAKeys rsaPriv).2
         now ts ti w1).1 = Ok plaintext.
Proof.
  intros Hlen Hvalid Hiv Ht0 Hadm0.
  assert (Hk : length (take AESKeySize sharedSecret) = 32%nat).
  { rewrite length_take. unfold AESKeySize in *. lia. }
  destruct (AES_admitted_roundtrip (take AESKeySize sharedSecret) iv plaintext Hk Hiv)
    as (c & Henc & _ & Hdec).
  destruct (SignECDSA_verifies ecdsaPriv c rnd Hvalid) as (esig & Hes & Hev).
  destruct (SignRSA_verifies rsaPriv c) as (rsig & Hrs & Hrv).
  unfold GenerateECDHKeys, GenerateRSAKeys in *. cbn [snd] in *.
  unfold CreateSecureMessage.
  rewrite slice_to_ok by exact Hlen.
  unfold AESEncrypt. rewrite (ConcurrencyCheck_admits w0 Hadm0), Henc.
  rewrite slice_from_ok by exact Hlen.
  cbn [obind]. rewrite Hes. cbn [obind]. rewrite Hrs. cbn [obind].
  eexists. eexists. split; [reflexivity|].
  cbn [Timestamp Nonce Cipher HMAC Signature PubKey RSASig IV].
  split; [reflexivity|]. split; [reflexivity|].
  intros now ts ti w1 Hwin Hn Hadm1.
  apply Verify_ok_iff.
  cbn [Timestamp Nonce Cipher HMAC Signature PubKey RSASig IV].
  repeat split; auto.
  apply timestamp_in_window; assumption.
Qed.

(** X26: two chat parties with valid keys end the key exchange with the same
    32-byte secret.  A line sent by one is delivered to the other as
    typed (fresh, first time, slots free on both sides), and its MAC is
    computed under the empty key, since the cipher key uses up the whole
    secret. *)
Theorem chat_line_is_delivered (a b : ECDSAPrivateKey) (ra rb : RSAPrivateKey)
    (text iv nonce rnd : bytes) (t0 : Z) (wA : World) :
  ecdsa_key_valid a -> ecdsa_key_valid b ->
  length iv = BlockSize ->
  0 <= t0 <= MaxInt64 ->
  concurrentOps wA < maxConcurrentOps ->
  exists infoA infoB msg wA',
    exchangeKeys (NewConnectionInfo a ra) (ECDSAPublic (NewConnectionInfo b rb))
      (RSAPublic (NewConnectionInfo b rb)) = Ok infoA /\
    exchangeKeys (NewConnectionInfo b rb) (ECDSAPublic (NewConnectionInfo a ra))
      (RSAPublic (NewConnectionInfo a ra)) = Ok infoB /\
    SharedSecret infoA = SharedSecret infoB /\
    length (SharedSecret infoA) = 32%nat /\
    sendMessage infoA text iv nonce rnd t0 wA = (Ok msg, wA') /\
    HMAC msg = GenerateHMAC [] (Cipher msg) /\
    forall (now : Z) (ts ti : Time) (wB : World),
      - MaxTimeDifference <= now - t0 <= MaxTimeDifference ->
      nt_nonces (globalNonceTracker wB) !! nonce = None ->
      concurrentOps wB < maxConcurrentOps ->
      (receiveMessage infoB msg now ts ti wB).1.1 = Ok (Delivered text).
Proof.
  intros Ha Hb Hiv Ht0 Hadm.
  set (x := (curve_ScalarMult (ec_PublicKey b) (big_Bytes (ec_D a))).1).
  set (secret := sha256_Sum256 (big_Bytes x)).
  assert (Hsl : length secret = 32%nat) by apply sha256_length.
  assert (HsA : ComputeSharedSecret a (GenerateECDHKeys b).2 = Ok secret).
  { unfold ComputeSharedSecret, GenerateECDHKeys. cbn [snd].
    rewrite x509_parse_ecdsa. reflexivity. }
  assert (HsB : ComputeSharedSecret b (GenerateECDHKeys a).2 = Ok secret).
  { unfold ComputeSharedSecret, GenerateECDHKeys. cbn [snd].
    rewrite x509_parse_ecdsa. subst secret x.
    unfold ecdsa_key_valid in Ha, Hb. rewrite Ha, Hb, scalar_mult_comm. reflexivity. }
  destruct (create_then_verify text secret a ra iv nonce rnd t0 wA)
    as (msg & wA' & Hcreate & Hnonce & Hmac & Hverify); auto.
  { unfold AESKeySize. lia. }
  unfold exchangeKeys, NewConnectionInfo.
  cbn [ECDSAPrivate ECDSAPublic RSAPrivate RSAPublic ci_NonceTracker fst].
  change (GenerateECDHKeys a).1 with a. change (GenerateECDHKeys b).1 with b.
  rewrite HsA, HsB. cbn [obind].
  eexists. eexists. exists msg, wA'.
  split; [reflexivity|]. split; [reflexivity|].
  cbn [SharedSecret]. split; [reflexivity|]. split; [exact Hsl|].
  split.
  { unfold sendMessage. cbn [SharedSecret ECDSAPrivate ECDSAPublic RSAPrivate].
    exact Hcreate. }
  split.
  { rewrite Hmac. unfold AESKeySize. rewrite drop_ge by lia. reflexivity. }
  intros now ts ti wB Hwin Hn Hadm1.
  unfold receiveMessage. cbn [ci_NonceTracker SharedSecret PeerRSA].
  rewrite lookup_empty.
  specialize (Hverify now ts ti wB Hwin Hn Hadm1).
  change (GenerateRSAKeys ra).1 with ra in *.
  destruct (VerifyAndDecryptMessage msg secret (GenerateRSAKeys ra).2 now ts ti wB)
    as [r w']. cbn [fst] in Hverify. subst r. reflexivity.
Qed.

End ChatFacts.

Lemma chat_line_is_delivered_witness :
  exists infoA infoB msg wA',
    exchangeKeys (prim := Toy.suite) (NewConnectionInfo (prim := Toy.suite) Toy.alice 3)
      (ECDSAPublic (NewConnectionInfo (prim := Toy.suite) Toy.bob 4))
      (RSAPublic (NewConnectionInfo (prim := Toy.suite) Toy.bob 4)) = Ok infoA /\
    exchangeKeys (prim := Toy.suite) (NewConnectionInfo (prim := Toy.suite) Toy.bob 4)
      (ECDSAPublic (NewConnectionInfo (prim := Toy.suite) Toy.alice 3))
      (RSAPublic (NewConnectionInfo (prim := Toy.suite) Toy.alice 3)) = Ok infoB /\
    SharedSecret infoA = SharedSecret infoB /\
    length (SharedSecret infoA) = 32%nat /\
    sendMessage (prim := Toy.suite) infoA Toy.hello Toy.iv16 Toy.nonce16 []
      1700000000 initial_world = (Ok msg, wA') /\
    HMAC msg = GenerateHMAC (prim := Toy.suite) [] (Cipher msg) /\
    forall (now : Z) (ts ti : Time) (wB : World),
      - MaxTimeDifference <= now - 1700000000 <= MaxTimeDifference ->
      nt_nonces (globalNonceTracker wB) !! Toy.nonce16 = None ->
      concurrentOps wB < maxConcurrentOps ->
      (receiveMessage (prim := Toy.suite) infoB msg now ts ti wB).1.1
        = Ok (Delivered Toy.hello).
Proof.
  apply (chat_line_is_delivered (ok := toy_suite_ok) Toy.alice Toy.bob 3 4).
  - reflexivity.
  - reflexivity.
  - reflexivity.
  - unfold MaxInt64. lia.
  - vm_compute. reflexivity.
Defined.

Section ChatTracker.
Context `{prim : Primitives}.



End ChatTracker.

